(** * Order-processing saga: inventory ledger, payment ledger, activities
      and the Temporal workflow, embedded from the TypeScript sources.

    Layout of the development:
    - [Js]            results, exceptions and the state-and-exception monad
                      in which every [async] function is embedded;
    - [Prisma]        the tables of [schema.prisma] and the client calls the
                      services make on them;
    - [Inventory]     [InventoryService] (decreaseStock / increaseStock);
    - [Payment]       [PaymentService] (charge / refund);
    - [Notification]  [NotificationService];
    - [Activities]    [createOrderActivities];
    - [Temporal]      retry options and the activity proxy;
    - [Workflow]      [processOrderWorkflow];
    - [Ledger], [Saga] the vocabulary the properties are stated in, and
                      the sample store and scripted activities they are
                      instantiated on;
    followed by the properties proved about them.

    Not represented: logging, wall-clock delays and timeouts, and
    failures of the database connection itself (a client call fails only
    on a missing row or a violated constraint). *)

From stdpp Require Import gmap strings list fin_maps pretty.
From Stdlib Require Import ZArith QArith.QArith_base.

Local Open Scope string_scope.
Local Open Scope Z_scope.

(* ===================================================================== *)
(** ** JavaScript results, exceptions, and the monad of async functions  *)
(* ===================================================================== *)

Module Js.

(** The outcome of an awaited promise: fulfilled with a value, or
    rejected with a thrown error. *)
Inductive Result (E A : Type) : Type :=
| Ok (a : A)
| Throw (e : E).
Arguments Ok {E A} a.
Arguments Throw {E A} e.

Definition isOk {E A} (r : Result E A) : bool :=
  match r with Ok _ => true | Throw _ => false end.

(** An async function over a store [S]: side effects made before a
    [throw] stay in the store. *)
Definition M (S E A : Type) : Type := S → Result E A * S.

Definition ret {S E A} (a : A) : M S E A := λ s, (Ok a, s).

Definition bind {S E A B} (m : M S E A) (k : A → M S E B) : M S E B :=
  λ s, match m s with
       | (Ok a, s') => k a s'
       | (Throw e, s') => (Throw e, s')
       end.

Definition throw {S E A} (e : E) : M S E A := λ s, (Throw e, s).

(** [try { m } catch (e) { h e }]; the handler may throw errors of
    another type. *)
Definition tryCatch {S E E' A} (m : M S E A) (h : E → M S E' A) : M S E' A :=
  λ s, match m s with
       | (Ok a, s') => (Ok a, s')
       | (Throw e, s') => h e s'
       end.

Definition get {S E} : M S E S := λ s, (Ok s, s).
Definition modify {S E} (f : S → S) : M S E unit := λ s, (Ok tt, f s).

(** The classes of thrown objects the sources distinguish with
    [instanceof], and the thrown object itself. *)
Inductive ErrorClass : Type :=
| PaymentFailedErrorClass
| InsufficientStockErrorClass
| InternalServerErrorExceptionClass
| PrismaClientKnownRequestErrorClass
| ErrorClass_Error.

Record Error : Type := mkError {
  class : ErrorClass;
  name : string;
  message : string;
}.

(** [new PaymentFailedError(m)], [new InsufficientStockError(m)]: the
    constructors in activitie.ts set [this.name]. *)
Definition PaymentFailedError (m : string) : Error :=
  mkError PaymentFailedErrorClass "PaymentFailedError" m.
Definition InsufficientStockError (m : string) : Error :=
  mkError InsufficientStockErrorClass "InsufficientStockError" m.
Definition InternalServerErrorException (m : string) : Error :=
  mkError InternalServerErrorExceptionClass "InternalServerErrorException" m.
Definition PrismaClientKnownRequestError (m : string) : Error :=
  mkError PrismaClientKnownRequestErrorClass "PrismaClientKnownRequestError" m.
Definition new_Error (m : string) : Error :=
  mkError ErrorClass_Error "Error" m.

Global Instance ErrorClass_eq_dec : EqDecision ErrorClass.
Proof. solve_decision. Defined.

(** [e instanceof C] *)
Definition instanceof (e : Error) (c : ErrorClass) : bool :=
  bool_decide (class e = c).

(** Truthiness of a [string | null] variable: [null] and the empty
    string are falsy. *)
Definition truthy (o : option string) : bool :=
  match o with
  | Some s => negb (String.eqb s "")
  | None => false
  end.

End Js.

Import Js.

Notation "'let*' x := m 'in' k" := (Js.bind m (λ x, k))
  (at level 10, x pattern, m at level 100, k at level 200,
   format "'[v' 'let*'  x  :=  m  'in' '/' k ']'").
Notation "m ;;; k" := (Js.bind m (λ _, k))
  (at level 100, right associativity, format "'[v' m  ;;; '/' k ']'").

(* ===================================================================== *)
(** ** The database of schema.prisma and the Prisma client calls         *)
(* ===================================================================== *)

Module OrderStatus.
Inductive t : Type :=
| PENDING | PROCESSING | PAYMENT_FAILED | PAID | INVENTORY_CHECK_FAILED
| AWAITING_FULFILLMENT | FULFILLMENT_ISSUE | READY_FOR_PICKUP | SHIPPED
| COMPLETED | CANCELLED | REFUNDING | REFUNDED.
Global Instance eq_dec : EqDecision t.
Proof. solve_decision. Defined.
End OrderStatus.

Module PaymentStatus.
Inductive t : Type :=
| PENDING | SUCCEEDED | FAILED | REFUND_INITIATED | REFUNDED | REFUND_FAILED.
Global Instance eq_dec : EqDecision t.
Proof. solve_decision. Defined.
End PaymentStatus.

(** A JavaScript [number] that the code only stores and passes on (prices
    and amounts, columns of type Float) is carried as a rational. *)
Abbreviation number := Q.

Module Product.
Record t : Type := mk {
  name : string;
  description : option string;
  price : number;
}.
End Product.

Module OrderItem.
Record t : Type := mk {
  productId : string;
  quantity : Z;
  priceAtOrder : number;
}.
End OrderItem.

Module Order.
(** The OrderItem rows of an order are kept with their order (the
    [items] relation); their own ids are not represented. *)
Record t : Type := mk {
  userId : string;
  userEmail : string;
  totalAmount : number;
  status : OrderStatus.t;
  items : list OrderItem.t;
  workflowId : option string;
}.
Definition withStatus (s : OrderStatus.t) (o : t) : t :=
  mk (userId o) (userEmail o) (totalAmount o) s (items o) (workflowId o).
End Order.

Module PaymentTransaction.
Record t : Type := mk {
  orderId : string;
  externalTransactionId : option string;
  amount : number;
  status : PaymentStatus.t;
}.
Definition withStatus (s : PaymentStatus.t) (p : t) : t :=
  mk (orderId p) (externalTransactionId p) (amount p) s.
Definition withExternal (x : string) (p : t) : t :=
  mk (orderId p) (Some x) (amount p) (status p).
End PaymentTransaction.

(** Calls that the mock services simulate towards the outside world; the
    sources mark them by comments and console output only, so they are
    recorded in the store to make them observable. *)
Inductive GatewayCall : Type :=
| GatewayCharge (paymentRecordId : string) (externalTxId : string) (accepted : bool)
| GatewayRefund (paymentRecordId : string) (accepted : bool).

Inductive Notification : Type :=
| KitchenOrder (orderId : string) (lines : list (Z * string))
| ConfirmationEmail (to : string) (orderId : string)
| FailureEmail (to : string) (orderId : string) (reason : string).

Module Prisma.

(** One finite map per table, keyed by the column the code looks rows
    up with: [id] for Order, PaymentTransaction and Product, the unique
    [productId] for InventoryItem (whose value is its [quantity]
    column, an integer; the 32-bit range of the column is not
    represented). Timestamps are not represented. *)
Record Db : Type := mkDb {
  order : gmap string Order.t;
  paymentTransaction : gmap string PaymentTransaction.t;
  inventoryItem : gmap string Z;
  product : gmap string Product.t;
}.

(** The store every service runs against: the database, the sources of
    the values the code draws ([uuid()] / [uuidv4()] and
    [Math.random()], each a stream with a read position), and the two
    logs of simulated outside calls. *)
Record World : Type := mkWorld {
  db : Db;
  uuids : nat → string;
  uuidsDrawn : nat;
  randoms : nat → Q;
  randomsDrawn : nat;
  gatewayCalls : list GatewayCall;
  sent : list Notification;
}.

Definition withDb (f : Db → Db) (w : World) : World :=
  mkWorld (f (db w)) (uuids w) (uuidsDrawn w) (randoms w) (randomsDrawn w)
          (gatewayCalls w) (sent w).
Definition withOrder (f : gmap string Order.t → gmap string Order.t) (d : Db) : Db :=
  mkDb (f (order d)) (paymentTransaction d) (inventoryItem d) (product d).
Definition withPaymentTransaction
    (f : gmap string PaymentTransaction.t → gmap string PaymentTransaction.t)
    (d : Db) : Db :=
  mkDb (order d) (f (paymentTransaction d)) (inventoryItem d) (product d).
Definition withInventoryItem (f : gmap string Z → gmap string Z) (d : Db) : Db :=
  mkDb (order d) (paymentTransaction d) (f (inventoryItem d)) (product d).

Definition uuid : M World Error string := λ w,
  (Ok (uuids w (uuidsDrawn w)),
   mkWorld (db w) (uuids w) (S (uuidsDrawn w)) (randoms w) (randomsDrawn w)
           (gatewayCalls w) (sent w)).

Definition Math_random : M World Error Q := λ w,
  (Ok (randoms w (randomsDrawn w)),
   mkWorld (db w) (uuids w) (uuidsDrawn w) (randoms w) (S (randomsDrawn w))
           (gatewayCalls w) (sent w)).

Definition logGateway (c : GatewayCall) : M World Error unit := λ w,
  (Ok tt,
   mkWorld (db w) (uuids w) (uuidsDrawn w) (randoms w) (randomsDrawn w)
           (gatewayCalls w ++ [c]) (sent w)).

Definition send (n : Notification) : M World Error unit := λ w,
  (Ok tt,
   mkWorld (db w) (uuids w) (uuidsDrawn w) (randoms w) (randomsDrawn w)
           (gatewayCalls w) (sent w ++ [n])).

(** [prisma.$transaction(async (tx) => body)]: commits when the body
    resolves, rolls the tables back when it rejects. *)
Definition transaction {A} (body : M World Error A) : M World Error A := λ w,
  match body w with
  | (Ok a, w') => (Ok a, w')
  | (Throw e, w') => (Throw e, withDb (λ _, db w) w')
  end.

Definition P2002 (field : string) : Error :=
  PrismaClientKnownRequestError ("Unique constraint failed on the fields: (`" +:+ field +:+ "`)").
Definition P2003 (field : string) : Error :=
  PrismaClientKnownRequestError ("Foreign key constraint failed on the field: `" +:+ field +:+ "`").
Definition P2025 : Error :=
  PrismaClientKnownRequestError "Record to update not found.".

(** *** prisma.order *)

(** [order.create({data: {..., status, items: {create: [...]}}})]: the
    id defaults to [uuid()]; the primary key and the foreign key of
    every item to Product are enforced. *)
Definition order_create (userId userEmail : string) (totalAmount : number)
    (status : OrderStatus.t) (items : list OrderItem.t) : M World Error string :=
  let* id := uuid in
  let* w := get in
  if bool_decide (is_Some (order (db w) !! id)) then throw (P2002 "id")
  else if forallb (λ i, bool_decide (is_Some (product (db w) !! OrderItem.productId i))) items
  then
    modify (withDb (withOrder
      <[id := Order.mk userId userEmail totalAmount status items None]>)) ;;;
    ret id
  else throw (P2003 "OrderItem_productId_fkey").

(** [order.update({where: {id}, data: {status}})] *)
Definition order_update (id : string) (status : OrderStatus.t) : M World Error unit :=
  let* w := get in
  match order (db w) !! id with
  | Some o => modify (withDb (withOrder <[id := Order.withStatus status o]>))
  | None => throw P2025
  end.

(** *** prisma.paymentTransaction *)

(** [paymentTransaction.create({data: {orderId, amount, status}})] *)
Definition paymentTransaction_create (orderId : string) (amount : number)
    (status : PaymentStatus.t) : M World Error string :=
  let* id := uuid in
  let* w := get in
  if bool_decide (is_Some (paymentTransaction (db w) !! id)) then throw (P2002 "id")
  else if bool_decide (is_Some (order (db w) !! orderId)) then
    modify (withDb (withPaymentTransaction
      <[id := PaymentTransaction.mk orderId None amount status]>)) ;;;
    ret id
  else throw (P2003 "PaymentTransaction_orderId_fkey").

(** [paymentTransaction.findUnique({where: {id}})] *)
Definition paymentTransaction_findUnique (id : string)
    : M World Error (option PaymentTransaction.t) :=
  let* w := get in ret (paymentTransaction (db w) !! id).

(** Some row other than [id] already carries this external id
    ([externalTransactionId String? @unique]). *)
Definition externalIdTaken (id x : string) (t : gmap string PaymentTransaction.t) : bool :=
  bool_decide (map_Exists (λ k row,
    k ≠ id ∧ PaymentTransaction.externalTransactionId row = Some x) t).

(** [paymentTransaction.update({where: {id}, data: {status}})] *)
Definition paymentTransaction_update (id : string) (status : PaymentStatus.t)
    : M World Error unit :=
  let* w := get in
  match paymentTransaction (db w) !! id with
  | Some row =>
      modify (withDb (withPaymentTransaction
        <[id := PaymentTransaction.withStatus status row]>))
  | None => throw P2025
  end.

(** [paymentTransaction.update({where: {id},
      data: {status, externalTransactionId}})] *)
Definition paymentTransaction_updateExternal (id : string) (status : PaymentStatus.t)
    (externalTransactionId : string) : M World Error unit :=
  let* w := get in
  match paymentTransaction (db w) !! id with
  | Some row =>
      if externalIdTaken id externalTransactionId (paymentTransaction (db w))
      then throw (P2002 "externalTransactionId")
      else modify (withDb (withPaymentTransaction
             <[id := PaymentTransaction.withExternal externalTransactionId
                       (PaymentTransaction.withStatus status row)]>))
  | None => throw P2025
  end.

(** *** prisma.inventoryItem *)

(** [inventoryItem.updateMany({where: {productId, quantity: {gte: n}},
      data: {quantity: {decrement: n}}})], returning [count]. *)
Definition inventoryItem_updateMany_decrement (productId : string) (n : Z)
    : M World Error nat :=
  let* w := get in
  match inventoryItem (db w) !! productId with
  | Some q =>
      if bool_decide (n ≤ q) then
        modify (withDb (withInventoryItem <[productId := q - n]>)) ;;; ret 1%nat
      else ret 0%nat
  | None => ret 0%nat
  end.

(** [inventoryItem.updateMany({where: {productId},
      data: {quantity: {increment: n}}})], returning [count]. *)
Definition inventoryItem_updateMany_increment (productId : string) (n : Z)
    : M World Error nat :=
  let* w := get in
  match inventoryItem (db w) !! productId with
  | Some q => modify (withDb (withInventoryItem <[productId := q + n]>)) ;;; ret 1%nat
  | None => ret 0%nat
  end.

(** [inventoryItem.findUnique({where: {productId}, select: {quantity}})] *)
Definition inventoryItem_findUnique (productId : string) : M World Error (option Z) :=
  let* w := get in ret (inventoryItem (db w) !! productId).

End Prisma.

Import Prisma.

(* ===================================================================== *)
(** ** InventoryService (inventory.service.ts)                           *)
(* ===================================================================== *)

Module Inventory.

Record StockUpdateItem : Type := mkItem {
  productId : string;
  quantity : Z;
}.

Definition notFoundReason (productId : string) : string :=
  "Product ID: " +:+ productId +:+ " not found in inventory.".

Definition insufficientReason (productId : string) (required available : Z) : string :=
  "Insufficient stock for Product ID: " +:+ productId
    +:+ ". Required: " +:+ pretty required
    +:+ ", Available: " +:+ pretty available +:+ ".".

(** [Promise.all(items.map(async (item) => {...}))] inside one
    interactive transaction. [map] runs every callback up to its first
    [await] before any continuation resumes, so the conditional
    [updateMany] of every item with a positive quantity is queued on the
    transaction in list order ([decreaseIssue], which keeps each
    [result.count]; [None] marks an item skipped for a non-positive
    quantity). The continuations then resume in list order
    ([decreaseResume]): the first one that saw [count === 0] reads the
    row back and throws, which rejects [Promise.all]. *)
Fixpoint decreaseIssue (items : list StockUpdateItem)
    : M World Error (list (StockUpdateItem * option nat)) :=
  match items with
  | [] => ret []
  | item :: rest =>
      if bool_decide (quantity item ≤ 0) then
        let* results := decreaseIssue rest in
        ret ((item, None) :: results)
      else
        let* count := inventoryItem_updateMany_decrement (productId item) (quantity item) in
        let* results := decreaseIssue rest in
        ret ((item, Some count) :: results)
  end.

Fixpoint decreaseResume (results : list (StockUpdateItem * option nat))
    : M World Error unit :=
  match results with
  | [] => ret tt
  | (item, Some O) :: _ =>
      let* exists_ := inventoryItem_findUnique (productId item) in
      let reason :=
        match exists_ with
        | Some available => insufficientReason (productId item) (quantity item) available
        | None => notFoundReason (productId item)
        end in
      throw (InsufficientStockError reason)
  | _ :: rest => decreaseResume rest
  end.

Definition decreaseStock (items : list StockUpdateItem) : M World Error unit :=
  match items with
  | [] => ret tt
  | _ =>
      tryCatch
        (transaction (let* results := decreaseIssue items in decreaseResume results))
        (λ error,
           if instanceof error InsufficientStockErrorClass then throw error
           else throw (InternalServerErrorException
                         "An unexpected error occurred while updating inventory."))
  end.

(** The callbacks of [increaseStock] never throw: a missing row is only
    logged. *)
Fixpoint increaseIssue (items : list StockUpdateItem)
    : M World Error (list (StockUpdateItem * option nat)) :=
  match items with
  | [] => ret []
  | item :: rest =>
      if bool_decide (quantity item ≤ 0) then
        let* results := increaseIssue rest in
        ret ((item, None) :: results)
      else
        let* count := inventoryItem_updateMany_increment (productId item) (quantity item) in
        let* results := increaseIssue rest in
        ret ((item, Some count) :: results)
  end.

Definition increaseStock (items : list StockUpdateItem) : M World Error unit :=
  match items with
  | [] => ret tt
  | _ =>
      tryCatch
        (transaction (let* _ := increaseIssue items in ret tt))
        (λ _, throw (InternalServerErrorException
                       "An unexpected error occurred while restoring inventory."))
  end.


End Inventory.

(* ===================================================================== *)
(** ** PaymentService (payment.service.ts)                               *)
(* ===================================================================== *)

Module Payment.

Definition upperAscii (c : Ascii.ascii) : Ascii.ascii :=
  let n := Ascii.nat_of_ascii c in
  if (Nat.leb 97 n && Nat.leb n 122)%bool then Ascii.ascii_of_nat (n - 32) else c.

Fixpoint toUpperCase (s : string) : string :=
  match s with
  | EmptyString => EmptyString
  | String c rest => String (upperAscii c) (toUpperCase rest)
  end.

(** [x > y] on numbers; the decimal literals of the source are read as
    rationals. *)
Definition gt (x y : Q) : bool := negb (Qle_bool x y).

Record ChargeResult : Type := mkChargeResult {
  transactionId : string;
  paymentRecordId : string;
}.

Definition charge (orderId : string) (amount : number) : M World Error ChargeResult :=
  let* paymentRecordId :=
    tryCatch (paymentTransaction_create orderId amount PaymentStatus.PENDING)
      (λ _, throw (InternalServerErrorException
                     "Database error occurred while initiating payment transaction.")) in
  let* u := uuid in
  let mockExternalTxId := "MOCK_TX_" +:+ toUpperCase u in
  let* r := Math_random in
  let isPaymentSuccessful := gt r (Qmake 15 100) in
  let* _ := Math_random in
  logGateway (GatewayCharge paymentRecordId mockExternalTxId isPaymentSuccessful) ;;;
  if isPaymentSuccessful then
    tryCatch
      (paymentTransaction_updateExternal paymentRecordId PaymentStatus.SUCCEEDED
         mockExternalTxId ;;;
       ret (mkChargeResult mockExternalTxId paymentRecordId))
      (λ _, throw (InternalServerErrorException
                     "Database error occurred after successful mock payment."))
  else
    tryCatch (paymentTransaction_update paymentRecordId PaymentStatus.FAILED)
             (λ _, ret tt) ;;;
    throw (PaymentFailedError
             ("Mock payment gateway declined the transaction for Order ID: " +:+ orderId)).

Definition refund (paymentRecordId : string) : M World Error unit :=
  let* transaction :=
    tryCatch (paymentTransaction_findUnique paymentRecordId)
      (λ _, throw (InternalServerErrorException
                     "Database error occurred while fetching transaction for refund.")) in
  match transaction with
  | None =>
      throw (new_Error ("Payment transaction record " +:+ paymentRecordId +:+ " not found."))
  | Some transaction =>
      if bool_decide (PaymentTransaction.status transaction ≠ PaymentStatus.SUCCEEDED)
      then ret tt
      else
        tryCatch (paymentTransaction_update paymentRecordId PaymentStatus.REFUND_INITIATED)
          (λ _, throw (InternalServerErrorException
                         "Database error occurred while initiating refund status.")) ;;;
        let* r := Math_random in
        let isRefundSuccessful := gt r (Qmake 5 100) in
        let* _ := Math_random in
        logGateway (GatewayRefund paymentRecordId isRefundSuccessful) ;;;
        if isRefundSuccessful then
          tryCatch (paymentTransaction_update paymentRecordId PaymentStatus.REFUNDED)
            (λ _, throw (InternalServerErrorException
                           "Database error occurred after successful mock refund."))
        else
          tryCatch (paymentTransaction_update paymentRecordId PaymentStatus.REFUND_FAILED)
                   (λ _, ret tt) ;;;
          throw (new_Error
                   ("Mock payment gateway failed to process refund for Transaction Record ID: "
                      +:+ paymentRecordId))
  end.

End Payment.

(* ===================================================================== *)
(** ** NotificationService (notification.service.ts)                     *)
(* ===================================================================== *)

Module NotificationService.

Record KitchenItem : Type := mkKitchenItem {
  productId : string;
  quantity : Z;
  name : option string;
}.

(** [item.name || `Product(${item.productId})`] *)
Definition displayName (item : KitchenItem) : string :=
  if truthy (name item) then default "" (name item)
  else "Product(" +:+ productId item +:+ ")".

Definition notifyKitchen (orderId : string) (items : list KitchenItem)
    : M World Error unit :=
  match items with
  | [] => ret tt
  | _ => send (KitchenOrder orderId (map (λ item, (quantity item, displayName item)) items))
  end.

Definition sendOrderConfirmationEmail (email orderId : string) : M World Error unit :=
  send (ConfirmationEmail email orderId).

(** [reason || 'An unexpected error occurred.'] *)
Definition sendOrderFailedEmail (email orderId reason : string) : M World Error unit :=
  send (FailureEmail email orderId
          (if String.eqb reason "" then "An unexpected error occurred." else reason)).

End NotificationService.

(* ===================================================================== *)
(** ** Activities (activitie.ts)                                         *)
(* ===================================================================== *)

Module Activities.

Record CreatePendingOrderData : Type := mkData {
  userId : string;
  userEmail : string;
  totalAmount : number;
  items : list OrderItem.t;
}.

(** [interface OrderActivitie], over a store [S] and with failures of
    type [E]. *)
Record OrderActivitie (S E : Type) : Type := mkActivities {
  createPendingOrder : CreatePendingOrderData → M S E string;
  updateOrderStatus : string → OrderStatus.t → M S E unit;
  chargePayment : string → number → M S E Payment.ChargeResult;
  validateAndDecreaseInventory : string → list Inventory.StockUpdateItem → M S E unit;
  notifyKitchen : string → list NotificationService.KitchenItem → M S E unit;
  sendConfirmationEmail : string → string → M S E unit;
  refundPayment : string → M S E unit;
  restoreInventory : string → list Inventory.StockUpdateItem → M S E unit;
  sendFailureEmail : string → string → string → M S E unit;
}.
Arguments mkActivities {S E}.
Arguments createPendingOrder {S E}.
Arguments updateOrderStatus {S E}.
Arguments chargePayment {S E}.
Arguments validateAndDecreaseInventory {S E}.
Arguments notifyKitchen {S E}.
Arguments sendConfirmationEmail {S E}.
Arguments refundPayment {S E}.
Arguments restoreInventory {S E}.
Arguments sendFailureEmail {S E}.

(** [error.name === C || error instanceof C] *)
Definition isNamedOrInstance (error : Error) (n : string) (c : ErrorClass) : bool :=
  (String.eqb (name error) n || instanceof error c)%bool.

Definition createPendingOrder_impl (data : CreatePendingOrderData) : M World Error string :=
  order_create (userId data) (userEmail data) (totalAmount data) OrderStatus.PENDING
    (map (λ item, OrderItem.mk (OrderItem.productId item) (OrderItem.quantity item)
                               (OrderItem.priceAtOrder item)) (items data)).

Definition updateOrderStatus_impl (orderId : string) (status : OrderStatus.t)
    : M World Error unit :=
  order_update orderId status.

Definition chargePayment_impl (orderId : string) (amount : number)
    : M World Error Payment.ChargeResult :=
  let* paymentRecordId := paymentTransaction_create orderId amount PaymentStatus.PENDING in
  tryCatch
    (let* paymentResult := Payment.charge orderId amount in
     paymentTransaction_updateExternal paymentRecordId PaymentStatus.SUCCEEDED
       (Payment.transactionId paymentResult) ;;;
     ret (Payment.mkChargeResult (Payment.transactionId paymentResult) paymentRecordId))
    (λ error,
       paymentTransaction_update paymentRecordId PaymentStatus.FAILED ;;;
       if isNamedOrInstance error "PaymentFailedError" PaymentFailedErrorClass
       then throw error
       else throw (PaymentFailedError
                     ("Payment failed for order " +:+ orderId +:+ ": " +:+ message error))).

Definition validateAndDecreaseInventory_impl (orderId : string)
    (items : list Inventory.StockUpdateItem) : M World Error unit :=
  tryCatch (Inventory.decreaseStock items)
    (λ error,
       if isNamedOrInstance error "InsufficientStockError" InsufficientStockErrorClass
       then throw error
       else throw (InsufficientStockError
                     ("Inventory check failed for order " +:+ orderId +:+ ": "
                        +:+ message error))).

(** The product names are fetched with [findMany] and put in a [Map];
    [productMap.get(id) ?? 'Unknown Product'] is the lookup in the
    Product table. *)
Definition notifyKitchen_impl (orderId : string)
    (items : list NotificationService.KitchenItem) : M World Error unit :=
  let* w := get in
  let itemsWithNames :=
    map (λ i, NotificationService.mkKitchenItem
                (NotificationService.productId i) (NotificationService.quantity i)
                (Some (match product (db w) !! NotificationService.productId i with
                       | Some p => Product.name p
                       | None => "Unknown Product"
                       end))) items in
  NotificationService.notifyKitchen orderId itemsWithNames.

Definition sendConfirmationEmail_impl (orderId userEmail : string) : M World Error unit :=
  NotificationService.sendOrderConfirmationEmail userEmail orderId.

Definition refundPayment_impl (paymentRecordId : string) : M World Error unit :=
  paymentTransaction_update paymentRecordId PaymentStatus.REFUND_INITIATED ;;;
  tryCatch
    (Payment.refund paymentRecordId ;;;
     paymentTransaction_update paymentRecordId PaymentStatus.REFUNDED)
    (λ error,
       paymentTransaction_update paymentRecordId PaymentStatus.REFUND_FAILED ;;;
       throw (new_Error ("Failed to refund payment record " +:+ paymentRecordId +:+ ": "
                           +:+ message error))).

Definition restoreInventory_impl (orderId : string)
    (items : list Inventory.StockUpdateItem) : M World Error unit :=
  tryCatch (Inventory.increaseStock items)
    (λ error,
       throw (new_Error ("Failed to restore inventory for order " +:+ orderId +:+ ": "
                           +:+ message error))).

Definition sendFailureEmail_impl (orderId userEmail reason : string) : M World Error unit :=
  NotificationService.sendOrderFailedEmail userEmail orderId reason.

Definition createOrderActivities : OrderActivitie World Error :=
  mkActivities
    createPendingOrder_impl updateOrderStatus_impl chargePayment_impl
    validateAndDecreaseInventory_impl notifyKitchen_impl sendConfirmationEmail_impl
    refundPayment_impl restoreInventory_impl sendFailureEmail_impl.

End Activities.

(* ===================================================================== *)
(** ** The hosting engine: failures, retry options, activity proxies     *)
(* ===================================================================== *)

Module Temporal.

(** What workflow code can catch around an awaited activity. *)
Inductive Failure : Type :=
| ActivityFailure (message : string) (cause : option Error)
| CancelledFailure (message : string)
| OtherFailure (message : string).

Definition failureMessage (f : Failure) : string :=
  match f with
  | ActivityFailure m _ | CancelledFailure m | OtherFailure m => m
  end.

(** Durations are in seconds. *)
Record RetryPolicy : Type := mkRetry {
  initialInterval : Z;
  backoffCoefficient : Z;
  maximumAttempts : nat;
  nonRetryableErrorTypes : list string;
}.

Record ActivityOptions : Type := mkOptions {
  startToCloseTimeout : Z;
  heartbeatTimeout : option Z;
  retry : RetryPolicy;
}.

(** The engine's retry rule for the options the workflow file passes:
    an attempt that throws an error whose [name] is listed in
    [nonRetryableErrorTypes] ends the activity; otherwise it is run
    again after [initialInterval * backoffCoefficient ^ (attempt - 1)]
    seconds (never more than the default cap of a hundred initial
    intervals) until [maximumAttempts] attempts were made. Timeouts are
    not represented. *)
Definition isNonRetryable (p : RetryPolicy) (e : Error) : bool :=
  existsb (String.eqb (name e)) (nonRetryableErrorTypes p).

Definition maximumInterval (p : RetryPolicy) : Z := 100 * initialInterval p.

Definition retryInterval (p : RetryPolicy) (attempt : nat) : Z :=
  Z.min (initialInterval p * backoffCoefficient p ^ (Z.of_nat attempt - 1))
        (maximumInterval p).

(** [runAttempts p act left attempt s] makes attempt number [attempt],
    with [left] further attempts allowed, and returns the final
    outcome, the store, and the backoff waited before each retry. *)
Fixpoint runAttempts {St A} (p : RetryPolicy) (act : M St Error A) (left attempt : nat)
    (s : St) : Result Error A * St * list Z :=
  match act s with
  | (Ok a, s') => (Ok a, s', [])
  | (Throw e, s') =>
      if isNonRetryable p e then (Throw e, s', [])
      else match left with
           | O => (Throw e, s', [])
           | S left' =>
               let '(r, s'', waits) := runAttempts p act left' (S attempt) s' in
               (r, s'', retryInterval p attempt :: waits)
           end
  end.

Definition executeActivity {St A} (o : ActivityOptions) (act : M St Error A) (s : St)
    : Result Error A * St * list Z :=
  runAttempts (retry o) act (maximumAttempts (retry o) - 1) 1 s.

(** Number of times the activity function ran. *)
Definition attemptsMade {St A} (r : Result Error A * St * list Z) : nat :=
  S (length r.2).

(** What the workflow awaits: the outcome of the last attempt, a
    failure being delivered as an [ActivityFailure] whose [cause] is
    taken to be the error the activity threw, with its name and class. *)
Definition proxy {St A} (o : ActivityOptions) (act : M St Error A) : M St Failure A :=
  λ s, match executeActivity o act s with
       | (Ok a, s', _) => (Ok a, s')
       | (Throw e, s', _) => (Throw (ActivityFailure "Activity task failed" (Some e)), s')
       end.

Import Activities.

(** [wf.proxyActivities<OrderActivitie>(options)] over the activities
    registered with the worker. *)
Definition proxyActivities {St} (o : ActivityOptions) (a : OrderActivitie St Error)
    : OrderActivitie St Failure :=
  mkActivities
    (λ data, proxy o (createPendingOrder a data))
    (λ orderId status, proxy o (updateOrderStatus a orderId status))
    (λ orderId amount, proxy o (chargePayment a orderId amount))
    (λ orderId items, proxy o (validateAndDecreaseInventory a orderId items))
    (λ orderId items, proxy o (notifyKitchen a orderId items))
    (λ orderId userEmail, proxy o (sendConfirmationEmail a orderId userEmail))
    (λ paymentRecordId, proxy o (refundPayment a paymentRecordId))
    (λ orderId items, proxy o (restoreInventory a orderId items))
    (λ orderId userEmail reason, proxy o (sendFailureEmail a orderId userEmail reason)).

End Temporal.

(* ===================================================================== *)
(** ** The workflow (order-processing.workflow.ts)                       *)
(* ===================================================================== *)

Module Workflow.

Import Activities Temporal.

Record WorkflowItem : Type := mkWorkflowItem {
  productId : string;
  quantity : Z;
  priceAtOrder : number;
  name : option string;
}.

Record OrderProcessingWorkflowInput : Type := mkInput {
  userId : string;
  userEmail : string;
  items : list WorkflowItem;
  totalAmount : number;
}.

Record Output : Type := mkOutput {
  out_orderId : string;
  out_finalStatus : OrderStatus.t;
}.

(** The two option literals given to [wf.proxyActivities]. *)
Definition forwardOptions : ActivityOptions :=
  mkOptions 60 (Some 30)
    (mkRetry 2 2 5 ["PaymentFailedError"; "InsufficientStockError"]).

Definition compensationOptions : ActivityOptions :=
  mkOptions 300 None (mkRetry 5 2 10 []).

(** The activity calls a run schedules, as the engine's history records
    them; the four compensation proxies are distinct from the forward
    ones. *)
Inductive ActivityCall : Type :=
| CreatePendingOrder (data : CreatePendingOrderData)
| UpdateOrderStatus (orderId : string) (status : OrderStatus.t)
| ChargePayment (orderId : string) (amount : number)
| ValidateAndDecreaseInventory (orderId : string) (items : list Inventory.StockUpdateItem)
| NotifyKitchen (orderId : string) (items : list NotificationService.KitchenItem)
| SendConfirmationEmail (orderId userEmail : string)
| RefundPaymentCompensation (paymentRecordId : string)
| RestoreInventoryCompensation (orderId : string) (items : list Inventory.StockUpdateItem)
| UpdateOrderStatusCompensation (orderId : string) (status : OrderStatus.t)
| SendFailureEmailCompensation (orderId userEmail reason : string).

Definition isCompensation (c : ActivityCall) : bool :=
  match c with
  | RefundPaymentCompensation _ | RestoreInventoryCompensation _ _
  | UpdateOrderStatusCompensation _ _ | SendFailureEmailCompensation _ _ _ => true
  | _ => false
  end.

Record HistoryEvent : Type := mkEvent {
  call : ActivityCall;
  completed : bool;
}.

(** The local variables of [processOrderWorkflow], the history of the
    run, and the store the activities act on. *)
Record Run (St : Type) : Type := mkRun {
  orderId : option string;
  paymentRecordId : option string;
  inventoryUpdated : bool;
  finalStatus : OrderStatus.t;
  failureReason : string;
  history : list HistoryEvent;
  env : St;
}.
Arguments mkRun {St}.
Arguments orderId {St}.
Arguments paymentRecordId {St}.
Arguments inventoryUpdated {St}.
Arguments finalStatus {St}.
Arguments failureReason {St}.
Arguments history {St}.
Arguments env {St}.

Definition start {St} (s : St) : Run St :=
  mkRun None None false OrderStatus.PENDING "Unknown Workflow Failure" [] s.

Definition stockItems (items : list WorkflowItem) : list Inventory.StockUpdateItem :=
  map (λ i, Inventory.mkItem (productId i) (quantity i)) items.

Definition kitchenItems (items : list WorkflowItem) : list NotificationService.KitchenItem :=
  map (λ i, NotificationService.mkKitchenItem (productId i) (quantity i) (name i)) items.

Definition orderData (input : OrderProcessingWorkflowInput) : CreatePendingOrderData :=
  mkData (userId input) (userEmail input) (totalAmount input)
    (map (λ i, OrderItem.mk (productId i) (quantity i) (priceAtOrder i)) (items input)).

(** [cause instanceof C || (cause && cause.name === 'C')] *)
Definition causeIs (cause : option Error) (n : string) (c : ErrorClass) : bool :=
  match cause with
  | Some e => (instanceof e c || String.eqb (Js.name e) n)%bool
  | None => false
  end.

(** The head of the [catch] block: terminal status and reason for the
    caught failure. *)
Definition classify (err : Failure) : OrderStatus.t * string :=
  match err with
  | ActivityFailure m cause =>
      if causeIs cause "PaymentFailedError" PaymentFailedErrorClass then
        (OrderStatus.PAYMENT_FAILED, "Payment was declined or failed.")
      else if causeIs cause "InsufficientStockError" InsufficientStockErrorClass then
        (OrderStatus.INVENTORY_CHECK_FAILED, "One or more items are out of stock.")
      else
        (OrderStatus.CANCELLED,
         "Activity execution failed: "
           +:+ match cause with Some e => message e | None => m end)
  | CancelledFailure _ => (OrderStatus.CANCELLED, "Workflow was cancelled.")
  | OtherFailure m => (OrderStatus.CANCELLED, "Workflow execution error: " +:+ m)
  end.

Section Run.

Context {St : Type}.
(** The forward and the compensation proxies. *)
Variables forward compensation : OrderActivitie St Failure.

(** [await activity(args)]: the activity acts on the store, and the
    history records the call and whether it completed. *)
Definition await {A} (c : ActivityCall) (m : M St Failure A) : M (Run St) Failure A :=
  λ r, let '(res, s') := m (env r) in
       (res, mkRun (orderId r) (paymentRecordId r) (inventoryUpdated r) (finalStatus r)
                   (failureReason r) (history r ++ [mkEvent c (isOk res)]) s').

Definition setOrderId (v : string) : M (Run St) Failure unit :=
  modify (λ r, mkRun (Some v) (paymentRecordId r) (inventoryUpdated r) (finalStatus r)
                     (failureReason r) (history r) (env r)).
Definition setPaymentRecordId (v : string) : M (Run St) Failure unit :=
  modify (λ r, mkRun (orderId r) (Some v) (inventoryUpdated r) (finalStatus r)
                     (failureReason r) (history r) (env r)).
Definition setInventoryUpdated (v : bool) : M (Run St) Failure unit :=
  modify (λ r, mkRun (orderId r) (paymentRecordId r) v (finalStatus r)
                     (failureReason r) (history r) (env r)).
Definition setFinalStatus (v : OrderStatus.t) : M (Run St) Failure unit :=
  modify (λ r, mkRun (orderId r) (paymentRecordId r) (inventoryUpdated r) v
                     (failureReason r) (history r) (env r)).
Definition setFailureReason (v : string) : M (Run St) Failure unit :=
  modify (λ r, mkRun (orderId r) (paymentRecordId r) (inventoryUpdated r) (finalStatus r)
                     v (history r) (env r)).

Definition tryBlock (input : OrderProcessingWorkflowInput) : M (Run St) Failure Output :=
  let* newOrderId :=
    await (CreatePendingOrder (orderData input))
          (createPendingOrder forward (orderData input)) in
  setOrderId newOrderId ;;;
  await (UpdateOrderStatus newOrderId OrderStatus.PROCESSING)
        (updateOrderStatus forward newOrderId OrderStatus.PROCESSING) ;;;
  setFinalStatus OrderStatus.PROCESSING ;;;
  let* paymentResult :=
    await (ChargePayment newOrderId (totalAmount input))
          (chargePayment forward newOrderId (totalAmount input)) in
  setPaymentRecordId (Payment.paymentRecordId paymentResult) ;;;
  await (UpdateOrderStatus newOrderId OrderStatus.PAID)
        (updateOrderStatus forward newOrderId OrderStatus.PAID) ;;;
  setFinalStatus OrderStatus.PAID ;;;
  await (ValidateAndDecreaseInventory newOrderId (stockItems (items input)))
        (validateAndDecreaseInventory forward newOrderId (stockItems (items input))) ;;;
  setInventoryUpdated true ;;;
  await (UpdateOrderStatus newOrderId OrderStatus.AWAITING_FULFILLMENT)
        (updateOrderStatus forward newOrderId OrderStatus.AWAITING_FULFILLMENT) ;;;
  setFinalStatus OrderStatus.AWAITING_FULFILLMENT ;;;
  await (NotifyKitchen newOrderId (kitchenItems (items input)))
        (notifyKitchen forward newOrderId (kitchenItems (items input))) ;;;
  await (SendConfirmationEmail newOrderId (userEmail input))
        (sendConfirmationEmail forward newOrderId (userEmail input)) ;;;
  await (UpdateOrderStatus newOrderId OrderStatus.COMPLETED)
        (updateOrderStatus forward newOrderId OrderStatus.COMPLETED) ;;;
  setFinalStatus OrderStatus.COMPLETED ;;;
  let* r := get in
  ret (mkOutput newOrderId (finalStatus r)).

(** The inner [try] of the [catch] block; runs with [orderId] set. *)
Definition compensate (input : OrderProcessingWorkflowInput) (orderId_ : string)
    : M (Run St) Failure unit :=
  let* r := get in
  (if truthy (paymentRecordId r) then
     await (RefundPaymentCompensation (default "" (paymentRecordId r)))
           (refundPayment compensation (default "" (paymentRecordId r)))
   else ret tt) ;;;
  (if inventoryUpdated r then
     await (RestoreInventoryCompensation orderId_ (stockItems (items input)))
           (restoreInventory compensation orderId_ (stockItems (items input)))
   else ret tt) ;;;
  await (UpdateOrderStatusCompensation orderId_ (finalStatus r))
        (updateOrderStatus compensation orderId_ (finalStatus r)) ;;;
  await (SendFailureEmailCompensation orderId_ (userEmail input) (failureReason r))
        (sendFailureEmail compensation orderId_ (userEmail input) (failureReason r)).

Definition compensationFailed (compensationError err : Failure) : Failure :=
  OtherFailure ("Compensation failed after initial error: "
                  +:+ failureMessage compensationError
                  +:+ ". Original error: " +:+ failureMessage err).

Definition catchBlock (input : OrderProcessingWorkflowInput) (err : Failure)
    : M (Run St) Failure Output :=
  setFinalStatus (classify err).1 ;;;
  setFailureReason (classify err).2 ;;;
  let* r := get in
  (if truthy (orderId r) then
     tryCatch (compensate input (default "" (orderId r)))
              (λ compensationError, throw (compensationFailed compensationError err))
   else ret tt) ;;;
  let* r := get in
  ret (mkOutput (default "N/A" (orderId r)) (finalStatus r)).

Definition processOrderWorkflow (input : OrderProcessingWorkflowInput)
    : M (Run St) Failure Output :=
  tryCatch (tryBlock input) (catchBlock input).

(** One run of the workflow from a fresh set of local variables. *)
Definition execute (input : OrderProcessingWorkflowInput) (s : St)
    : Result Failure Output * Run St :=
  processOrderWorkflow input (start s).

End Run.

(** The workflow as the worker runs it: both proxies over the
    registered activities. *)
Definition run {St} (activities : OrderActivitie St Error)
    (input : OrderProcessingWorkflowInput) (s : St) : Result Failure Output * Run St :=
  execute (proxyActivities forwardOptions activities)
          (proxyActivities compensationOptions activities) input s.

End Workflow.

(* ===================================================================== *)
(** ** Vocabulary for the inventory ledger                               *)
(* ===================================================================== *)

Module Ledger.

Import Inventory.

Definition stock (w : World) : gmap string Z := inventoryItem (db w).

Definition setStock (inv : gmap string Z) (w : World) : World :=
  withDb (withInventoryItem (λ _, inv)) w.

Definition nonNegative (inv : gmap string Z) : Prop :=
  map_Forall (λ _ q, 0 ≤ q) inv.

(** The conditional update on the table alone, with its [count]. *)
Definition decremented (inv : gmap string Z) (p : string) (n : Z) : gmap string Z * nat :=
  match inv !! p with
  | Some q => if bool_decide (n ≤ q) then (<[p := q - n]> inv, 1%nat) else (inv, 0%nat)
  | None => (inv, 0%nat)
  end.

Definition incremented (inv : gmap string Z) (p : string) (n : Z) : gmap string Z * nat :=
  match inv !! p with
  | Some q => (<[p := q + n]> inv, 1%nat)
  | None => (inv, 0%nat)
  end.

(** Table and counts once every update of a batch was issued. *)
Fixpoint issued (items : list StockUpdateItem) (inv : gmap string Z)
    : gmap string Z * list (StockUpdateItem * option nat) :=
  match items with
  | [] => (inv, [])
  | item :: rest =>
      if bool_decide (quantity item ≤ 0) then
        ((issued rest inv).1, (item, None) :: (issued rest inv).2)
      else
        let step := decremented inv (productId item) (quantity item) in
        ((issued rest step.1).1, (item, Some step.2) :: (issued rest step.1).2)
  end.

Fixpoint restored (items : list StockUpdateItem) (inv : gmap string Z) : gmap string Z :=
  match items with
  | [] => inv
  | item :: rest =>
      if bool_decide (quantity item ≤ 0) then restored rest inv
      else restored rest (incremented inv (productId item) (quantity item)).1
  end.

(** The first item of the batch whose conditional decrement matched
    zero rows. *)
Fixpoint firstUnmatched (results : list (StockUpdateItem * option nat))
    : option StockUpdateItem :=
  match results with
  | [] => None
  | (item, Some O) :: _ => Some item
  | _ :: rest => firstUnmatched rest
  end.

(** The message built after [findUnique] on table [inv]. *)
Definition reasonFor (item : StockUpdateItem) (inv : gmap string Z) : string :=
  match inv !! productId item with
  | Some available => insufficientReason (productId item) (quantity item) available
  | None => notFoundReason (productId item)
  end.


(** Total quantity a batch asks of product [p], and how many of its
    items (with a positive quantity) name [p]. *)
Fixpoint demand (p : string) (items : list StockUpdateItem) : Z :=
  match items with
  | [] => 0
  | item :: rest =>
      if bool_decide (productId item = p ∧ 0 < quantity item)
      then quantity item + demand p rest
      else demand p rest
  end.

Fixpoint mentions (p : string) (items : list StockUpdateItem) : nat :=
  match items with
  | [] => 0%nat
  | item :: rest =>
      if bool_decide (productId item = p ∧ 0 < quantity item)
      then S (mentions p rest)
      else mentions p rest
  end.

(** A sequence of ledger calls, run one after the other whatever each
    one's outcome. *)
Inductive StockOp : Type :=
| Decrease (items : list StockUpdateItem)
| Increase (items : list StockUpdateItem).

Definition applyOp (op : StockOp) (w : World) : World :=
  match op with
  | Decrease items => (decreaseStock items w).2
  | Increase items => (increaseStock items w).2
  end.

Definition applyOps (ops : list StockOp) (w : World) : World :=
  foldl (λ w op, applyOp op w) w ops.

End Ledger.

(* ===================================================================== *)
(** ** Vocabulary for the payment ledger and the workflow                *)
(* ===================================================================== *)

Module Saga.

Import Activities Temporal Workflow.

Definition payments (w : World) : gmap string PaymentTransaction.t :=
  paymentTransaction (db w).

(** The forward calls of a run that obtained order id [oid], in the
    order of the [try] block. *)
Definition forwardPlan (input : OrderProcessingWorkflowInput) (oid : string)
    : list ActivityCall :=
  [ CreatePendingOrder (orderData input);
    UpdateOrderStatus oid OrderStatus.PROCESSING;
    ChargePayment oid (totalAmount input);
    UpdateOrderStatus oid OrderStatus.PAID;
    ValidateAndDecreaseInventory oid (stockItems (items input));
    UpdateOrderStatus oid OrderStatus.AWAITING_FULFILLMENT;
    NotifyKitchen oid (kitchenItems (items input));
    SendConfirmationEmail oid (userEmail input);
    UpdateOrderStatus oid OrderStatus.COMPLETED ].

(** The compensation steps that apply to a run, given its local
    variables: the refund when a payment record id exists, the restore
    when the inventory was decremented, then the terminal status update
    and the failure notification. *)
Definition compensationPlan {St} (input : OrderProcessingWorkflowInput) (r : Run St)
    : list ActivityCall :=
  ((if truthy (paymentRecordId r)
    then [RefundPaymentCompensation (default "" (paymentRecordId r))] else [])
   ++ (if inventoryUpdated r
       then [RestoreInventoryCompensation (default "" (orderId r))
               (stockItems (items input))] else [])
   ++ [ UpdateOrderStatusCompensation (default "" (orderId r)) (finalStatus r);
        SendFailureEmailCompensation (default "" (orderId r)) (userEmail input)
          (failureReason r) ])%list.

Definition compensationEvents (h : list HistoryEvent) : list HistoryEvent :=
  filter (λ e, isCompensation (call e) = true) h.

Definition forwardEvents (h : list HistoryEvent) : list HistoryEvent :=
  filter (λ e, isCompensation (call e) = false) h.

Definition allCompleted (h : list HistoryEvent) : Prop :=
  Forall (λ e, completed e = true) h.

Definition attempted (c : ActivityCall) (h : list HistoryEvent) : Prop :=
  c ∈ map call h.

(** [events] is a run of [plan] that stops at the first failure: the
    calls of the plan are attempted in order, each one once every
    earlier one completed, and nothing is attempted after a call that
    failed. *)
Fixpoint sequentialRun (plan : list ActivityCall) (events : list HistoryEvent) : Prop :=
  match plan, events with
  | [], [] => True
  | c :: plan', e :: events' =>
      call e = c ∧ (if completed e then sequentialRun plan' events' else events' = [])
  | _, _ => False
  end.

Definition allCompensationAttempted {St} (input : OrderProcessingWorkflowInput)
    (r : Run St) : Prop :=
  ∀ c, c ∈ compensationPlan input r → attempted c (history r).

(** Forward progress as the history shows it: the charge, respectively
    the inventory decrement, completed. *)
Definition isCharge (c : ActivityCall) : bool :=
  match c with ChargePayment _ _ => true | _ => false end.

Definition isDecrease (c : ActivityCall) : bool :=
  match c with ValidateAndDecreaseInventory _ _ => true | _ => false end.

Definition completedSome (p : ActivityCall → bool) (h : list HistoryEvent) : bool :=
  existsb (λ e, p (call e) && completed e) h.

Definition isSet (o : option string) : bool :=
  match o with Some _ => true | None => false end.

(** The order-status writes a history asks for, in order. *)
Definition statusUpdate (c : ActivityCall) : option (string * OrderStatus.t) :=
  match c with
  | UpdateOrderStatus o st | UpdateOrderStatusCompensation o st => Some (o, st)
  | _ => None
  end.

Definition statusUpdates (h : list HistoryEvent) : list (string * OrderStatus.t) :=
  omap statusUpdate (map call h).

(** The local variables once the [catch] block has classified [err]. *)
Definition classified {St} (r0 : Run St) (err : Failure) : Run St :=
  mkRun (orderId r0) (paymentRecordId r0) (inventoryUpdated r0)
        (classify err).1 (classify err).2 (history r0) (env r0).

(** Activities that answer from a script, whatever their arguments and
    without touching a store: test doubles for the interface the
    workflow is written against. *)
Record Script : Type := mkScript {
  onCreatePendingOrder : Result Failure string;
  onUpdateOrderStatus : Result Failure unit;
  onChargePayment : Result Failure Payment.ChargeResult;
  onValidateAndDecreaseInventory : Result Failure unit;
  onNotifyKitchen : Result Failure unit;
  onSendConfirmationEmail : Result Failure unit;
  onRefundPayment : Result Failure unit;
  onRestoreInventory : Result Failure unit;
  onSendFailureEmail : Result Failure unit;
}.

Definition scripted (sc : Script) : OrderActivitie unit Failure :=
  mkActivities
    (λ _ s, (onCreatePendingOrder sc, s))
    (λ _ _ s, (onUpdateOrderStatus sc, s))
    (λ _ _ s, (onChargePayment sc, s))
    (λ _ _ s, (onValidateAndDecreaseInventory sc, s))
    (λ _ _ s, (onNotifyKitchen sc, s))
    (λ _ _ s, (onSendConfirmationEmail sc, s))
    (λ _ s, (onRefundPayment sc, s))
    (λ _ _ s, (onRestoreInventory sc, s))
    (λ _ _ _ s, (onSendFailureEmail sc, s)).

Definition allGood : Script :=
  mkScript (Ok "order-1") (Ok tt) (Ok (Payment.mkChargeResult "MOCK_TX_1" "pay-1"))
           (Ok tt) (Ok tt) (Ok tt) (Ok tt) (Ok tt) (Ok tt).

Definition declined : Failure :=
  ActivityFailure "Activity task failed"
    (Some (PaymentFailedError
             "Mock payment gateway declined the transaction for Order ID: order-1")).

Definition outage : Failure :=
  ActivityFailure "Activity task failed"
    (Some (PrismaClientKnownRequestError "Can't reach database server")).

(** The charge is declined. *)
Definition chargeDeclined : Script :=
  mkScript (Ok "order-1") (Ok tt) (Throw declined)
           (Ok tt) (Ok tt) (Ok tt) (Ok tt) (Ok tt) (Ok tt).

(** During compensation the status update keeps failing. *)
Definition statusUpdateDown : Script :=
  mkScript (Ok "order-1") (Throw outage) (Ok (Payment.mkChargeResult "MOCK_TX_1" "pay-1"))
           (Ok tt) (Ok tt) (Ok tt) (Ok tt) (Ok tt) (Ok tt).

(** The order cannot even be created. *)
Definition createDown : Script :=
  mkScript (Throw outage) (Ok tt) (Ok (Payment.mkChargeResult "MOCK_TX_1" "pay-1"))
           (Ok tt) (Ok tt) (Ok tt) (Ok tt) (Ok tt) (Ok tt).

Definition sampleInput : OrderProcessingWorkflowInput :=
  mkInput "user-1" "customer@example.com"
    [mkWorkflowItem "productA" 2 (Qmake 10 1) (Some "Fried chicken")] (Qmake 20 1).

(** A store with one product, one unit of it in stock, one order and
    one settled payment. *)
Definition sampleWorld : World :=
  mkWorld
    (mkDb {[ "order-1" := Order.mk "user-1" "customer@example.com" (Qmake 20 1)
                            OrderStatus.PAID
                            [OrderItem.mk "productA" 2 (Qmake 10 1)] None ]}
          {[ "pay-1" := PaymentTransaction.mk "order-1" (Some "MOCK_TX_1") (Qmake 20 1)
                          PaymentStatus.SUCCEEDED ]}
          {[ "productA" := 1 ]}
          {[ "productA" := Product.mk "Fried chicken" None (Qmake 10 1) ]})
    (λ n, "uuid-" +:+ pretty n) 0
    (λ _, Qmake 1 100) 0
    [] [].

End Saga.

(* ===================================================================== *)
(** ** OrderService (order.service.ts)                                   *)
(* ===================================================================== *)

Module OrderService.

Import Workflow.

Record OrderItemDto : Type := mkItemDto {
  productId : string;
  quantity : Z;
}.

Record CreateOrderDto : Type := mkDto {
  userId : string;
  userEmail : string;
  items : list OrderItemDto;
}.

(** The two HTTP exceptions the service throws. *)
Inductive HttpException : Type :=
| NotFoundException (message : string)
| InternalServerErrorException (message : string).

Record Submitted : Type := mkSubmitted {
  workflowId : string;
  message : string;
}.

(** [getOrderStatusFromDb(orderId)]: [findUnique] with
    [select: {status, updatedAt}]; the timestamp is not represented. *)
Definition getOrderStatusFromDb (orderId : string) : M World HttpException OrderStatus.t :=
  λ w, match order (db w) !! orderId with
       | Some o => (Ok (Order.status o), w)
       | None =>
           (Throw (NotFoundException ("Order with ID " +:+ orderId +:+ " not found.")), w)
       end.

(** [prisma.product.findMany({where: {id: {in: productIds}}})]: the rows
    of the Product table whose id is listed. *)
Definition findMany (productIds : list string) (w : World) : gmap string Product.t :=
  filter (λ kv, kv.1 ∈ productIds) (product (db w)).

(** [uuidv4()]: the next value of the id source. *)
Definition uuidv4 (w : World) : string * World :=
  (uuids w (uuidsDrawn w), (uuid w).2).

Section Service.

(** The total is accumulated in floating point ([totalAmount +=
    priceAtOrder * quantity]); the two operations are left open. *)
Variable times : number → Z → number.
Variable plus : number → number → number.

(** [temporalClient.workflow.start(processOrderWorkflow, {taskQueue,
    workflowId, args: [workflowInput]})], answering [handle.workflowId]. *)
Variable workflowStart : string → OrderProcessingWorkflowInput → M World Error string.

(** The [for (const itemDto of itemDtos)] loop, carrying [totalAmount] and
    [workflowItems]. *)
Fixpoint priceItems (productMap : gmap string Product.t) (itemDtos : list OrderItemDto)
    (totalAmount : number) (workflowItems : list WorkflowItem)
    : Result HttpException (number * list WorkflowItem) :=
  match itemDtos with
  | [] => Ok (totalAmount, workflowItems)
  | itemDto :: rest =>
      match productMap !! productId itemDto with
      | None =>
          Throw (InternalServerErrorException
                   ("Product data inconsistent for ID: " +:+ productId itemDto))
      | Some product =>
          priceItems productMap rest
            (plus totalAmount (times (Product.price product) (quantity itemDto)))
            (workflowItems
               ++ [mkWorkflowItem (productId itemDto) (quantity itemDto)
                     (Product.price product) (Some (Product.name product))])
      end
  end.

Definition createOrder (createOrderDto : CreateOrderDto) : M World HttpException Submitted :=
  λ w,
    let productIds := map productId (items createOrderDto) in
    let products := findMany productIds w in
    if bool_decide (size products ≠ length productIds) then
      let notFoundIds := filter (λ id, products !! id = None) productIds in
      (Throw (NotFoundException
                ("Products not found: " +:+ String.concat ", " notFoundIds)), w)
    else
      match priceItems products (items createOrderDto) (Qmake 0 1) [] with
      | Throw e => (Throw e, w)
      | Ok (totalAmount, workflowItems) =>
          let workflowInput :=
            mkInput (userId createOrderDto) (userEmail createOrderDto)
                    workflowItems totalAmount in
          let '(uniqueWorkflowIdSuffix, w1) := uuidv4 w in
          match workflowStart ("order-wf-" +:+ uniqueWorkflowIdSuffix) workflowInput w1 with
          | (Ok handleWorkflowId, w2) =>
              (Ok (mkSubmitted handleWorkflowId
                     "Order processing initiated. You will receive an email confirmation shortly."),
               w2)
          | (Throw _, w2) =>
              (Throw (InternalServerErrorException
                        "Failed to initiate order processing. Please try again later."),
               w2)
          end
      end.

End Service.

End OrderService.

(* ===================================================================== *)
(** ** Further vocabulary: sequences of calls, catalogue names           *)
(* ===================================================================== *)

Module Further.

Import Inventory Ledger Activities Temporal Workflow Saga.

(** The items of a batch that are not skipped. *)
Definition positiveItems (items : list StockUpdateItem) : list StockUpdateItem :=
  filter (λ item, 0 < Inventory.quantity item) items.

(** Quantity of product [p] handed out by a sequence of decreaseStock
    calls run one after the other: the demand of the batches that
    succeeded. *)
Fixpoint granted (p : string) (batches : list (list StockUpdateItem)) (w : World) : Z :=
  match batches with
  | [] => 0
  | batch :: rest =>
      match decreaseStock batch w with
      | (Ok _, w') => demand p batch + granted p rest w'
      | (Throw _, w') => granted p rest w'
      end
  end.

(** [n] calls of [PaymentService.refund] on one record, whatever each
    one's outcome. *)
Fixpoint refundRepeatedly (n : nat) (paymentRecordId : string) (w : World) : World :=
  match n with
  | O => w
  | S n' => refundRepeatedly n' paymentRecordId (Payment.refund paymentRecordId w).2
  end.

Definition isRefundOf (paymentRecordId : string) (c : GatewayCall) : bool :=
  match c with
  | GatewayRefund id _ => String.eqb id paymentRecordId
  | GatewayCharge _ _ _ => false
  end.

Definition refundCalls (paymentRecordId : string) (w : World) : list GatewayCall :=
  filter (λ c, isRefundOf paymentRecordId c = true) (gatewayCalls w).

(** The name the kitchen sees for a product: its catalogue name, the
    [Product(id)] placeholder when that name is empty, and
    [Unknown Product] when the catalogue has no such product. *)
Definition kitchenName (w : World) (productId : string) : string :=
  match product (db w) !! productId with
  | Some p =>
      if String.eqb (Product.name p) "" then "Product(" +:+ productId +:+ ")"
      else Product.name p
  | None => "Unknown Product"
  end.

Definition withSent (n : Notification) (w : World) : World :=
  mkWorld (db w) (uuids w) (uuidsDrawn w) (randoms w) (randomsDrawn w)
          (gatewayCalls w) (sent w ++ [n]).

(** The calls a run may make when the charge never succeeds. *)
Definition beforeInventory (c : ActivityCall) : bool :=
  match c with
  | CreatePendingOrder _ | UpdateOrderStatus _ _ | ChargePayment _ _
  | UpdateOrderStatusCompensation _ _ | SendFailureEmailCompensation _ _ _ => true
  | _ => false
  end.

(** What the first steps of a run leave alone: the inventory, the
    kitchen and the confirmation mails. *)
Definition kitchenOrConfirmation (n : Notification) : bool :=
  match n with
  | KitchenOrder _ _ | ConfirmationEmail _ _ => true
  | FailureEmail _ _ _ => false
  end.

Definition untouched (w : World) : gmap string Z * list Notification :=
  (inventoryItem (db w), filter (λ n, kitchenOrConfirmation n = true) (sent w)).

(** An action that leaves both as they are, whatever its outcome. *)
Definition leavesUntouched {E A} (m : M World E A) : Prop :=
  ∀ w, untouched (m w).2 = untouched w.

(** The store a client that never answers leaves as it is, and a client
    on an unreachable server. *)
Definition startAccepted (workflowId : string) (_ : OrderProcessingWorkflowInput)
    : M World Error string :=
  λ w, (Ok workflowId, w).

Definition startRefused (_ : string) (_ : OrderProcessingWorkflowInput)
    : M World Error string :=
  λ w, (Throw (new_Error "Connection refused"), w).

(** The product ids a request names, in order, and what createOrder
    requires of them. *)
Definition requestedIds (dto : OrderService.CreateOrderDto) : list string :=
  map OrderService.productId (OrderService.items dto).

Definition inCatalogue (w : World) (productId : string) : Prop :=
  is_Some (product (db w) !! productId).

(** A request item as a workflow item, priced and named from the
    catalogue. *)
Definition pricedItem (w : World) (itemDto : OrderService.OrderItemDto) : WorkflowItem :=
  match product (db w) !! OrderService.productId itemDto with
  | Some p =>
      mkWorkflowItem (OrderService.productId itemDto) (OrderService.quantity itemDto)
        (Product.price p) (Some (Product.name p))
  | None =>
      mkWorkflowItem (OrderService.productId itemDto) (OrderService.quantity itemDto)
        (Qmake 0 1) None
  end.

Definition timesQ (price : number) (quantity : Z) : number :=
  Qmult price (Qmake quantity 1).

Definition sampleDto : OrderService.CreateOrderDto :=
  OrderService.mkDto "user-1" "customer@example.com"
    [OrderService.mkItemDto "productA" 2].

End Further.

(* ===================================================================== *)
(** * Properties                                                          *)
(* ===================================================================== *)

Module LedgerFacts.

Import Inventory Ledger.

Lemma setStock_stock w : setStock (stock w) w = w.
Proof. by destruct w as [[] ? ? ? ? ? ?]. Qed.

Lemma setStock_setStock inv inv' w : setStock inv' (setStock inv w) = setStock inv' w.
Proof. done. Qed.

Lemma stock_setStock inv w : stock (setStock inv w) = inv.
Proof. done. Qed.

Lemma rollback_setStock inv w : withDb (λ _, db w) (setStock inv w) = w.
Proof. by destruct w as [[] ? ? ? ? ? ?]. Qed.

Lemma updateMany_decrement_run p n w :
  inventoryItem_updateMany_decrement p n w
  = (Ok (decremented (stock w) p n).2, setStock (decremented (stock w) p n).1 w).
Proof.
  unfold inventoryItem_updateMany_decrement, decremented, bind, get, stock. simpl.
  destruct (inventoryItem (db w) !! p) as [q|]; simpl.
  - case_bool_decide; simpl; [done|]. by rewrite <-(setStock_stock w) at 1.
  - by rewrite <-(setStock_stock w) at 1.
Qed.

Lemma updateMany_increment_run p n w :
  inventoryItem_updateMany_increment p n w
  = (Ok (incremented (stock w) p n).2, setStock (incremented (stock w) p n).1 w).
Proof.
  unfold inventoryItem_updateMany_increment, incremented, bind, get, stock. simpl.
  destruct (inventoryItem (db w) !! p) as [q|]; simpl; [done|].
  by rewrite <-(setStock_stock w) at 1.
Qed.

Lemma decreaseIssue_run items : ∀ w,
  decreaseIssue items w
  = (Ok (issued items (stock w)).2, setStock (issued items (stock w)).1 w).
Proof.
  induction items as [|item rest IH]; intros w; simpl.
  - unfold ret. by rewrite setStock_stock.
  - case_bool_decide; unfold bind.
    + rewrite IH. done.
    + rewrite updateMany_decrement_run, IH. done.
Qed.

Lemma increaseIssue_run items : ∀ w,
  ∃ results, increaseIssue items w = (Ok results, setStock (restored items (stock w)) w).
Proof.
  induction items as [|item rest IH]; intros w; simpl.
  - exists []. unfold ret. by rewrite setStock_stock.
  - case_bool_decide; unfold bind.
    + destruct (IH w) as [rs ->]. eauto.
    + rewrite updateMany_increment_run.
      destruct (IH (setStock (incremented (stock w) (productId item) (quantity item)).1 w))
        as [rs ->]. eauto.
Qed.

Lemma decreaseResume_run results w :
  decreaseResume results w
  = match firstUnmatched results with
    | None => (Ok tt, w)
    | Some item => (Throw (InsufficientStockError (reasonFor item (stock w))), w)
    end.
Proof.
  induction results as [|[item [[|c]|]] rest IH]; simpl; try done.
Qed.

Lemma decreaseStock_run items w :
  decreaseStock items w
  = match firstUnmatched (issued items (stock w)).2 with
    | None => (Ok tt, setStock (issued items (stock w)).1 w)
    | Some item =>
        (Throw (InsufficientStockError (reasonFor item (issued items (stock w)).1)), w)
    end.
Proof.
  destruct items as [|item rest].
  - simpl. unfold ret. by rewrite setStock_stock.
  - unfold decreaseStock, tryCatch, transaction, bind.
    rewrite decreaseIssue_run, decreaseResume_run.
    destruct (firstUnmatched _); [|done].
    by rewrite rollback_setStock.
Qed.

Lemma increaseStock_run items w :
  increaseStock items w = (Ok tt, setStock (restored items (stock w)) w).
Proof.
  destruct items as [|item rest].
  - simpl. unfold ret. by rewrite setStock_stock.
  - unfold increaseStock, tryCatch, transaction, bind.
    destruct (increaseIssue_run (item :: rest) w) as [rs ->]. done.
Qed.


(** *** Arithmetic of one batch *)

Lemma decremented_lookup inv p n k :
  (decremented inv p n).1 !! k
  = if bool_decide (p = k ∧ (decremented inv p n).2 = 1%nat)
    then (λ q, q - n) <$> inv !! k else inv !! k.
Proof.
  unfold decremented. destruct (inv !! p) as [q|] eqn:Hp; simpl.
  - case_bool_decide; simpl.
    + case_bool_decide as Hk.
      * destruct Hk as [<- _]. by rewrite lookup_insert_eq, Hp.
      * rewrite lookup_insert_ne; [done|]. intros ->. by apply Hk.
    + case_bool_decide as Hk; [|done]. by destruct Hk.
  - case_bool_decide as Hk; [|done]. by destruct Hk.
Qed.

Lemma decremented_count inv p n :
  (decremented inv p n).2 = 1%nat ∧ (∃ q, inv !! p = Some q ∧ n ≤ q)
  ∨ (decremented inv p n).2 = 0%nat ∧ (decremented inv p n).1 = inv
    ∧ (∀ q, inv !! p = Some q → q < n).
Proof.
  unfold decremented. destruct (inv !! p) as [q|]; simpl.
  - case_bool_decide; simpl; [left; eauto|right].
    split_and!; [done..|]. intros ? [= <-]. lia.
  - right. split_and!; done.
Qed.

Lemma incremented_lookup inv p n k :
  (incremented inv p n).1 !! k
  = if bool_decide (p = k) then (λ q, q + n) <$> inv !! k else inv !! k.
Proof.
  unfold incremented. destruct (inv !! p) as [q|] eqn:Hp; simpl.
  - case_bool_decide as Hk.
    + subst. by rewrite lookup_insert_eq, Hp.
    + by rewrite lookup_insert_ne.
  - case_bool_decide; [|done]. subst. by rewrite Hp.
Qed.

Lemma decremented_nonNegative inv p n :
  nonNegative inv → nonNegative (decremented inv p n).1.
Proof.
  intros Hinv k a. rewrite decremented_lookup.
  case_bool_decide as Hk; [|apply Hinv].
  destruct Hk as [<- Hc].
  destruct (decremented_count inv p n) as [[_ (q & Hq & Hle)]|[Hc' _]]; [|congruence].
  rewrite Hq. intros [= <-]. lia.
Qed.

Lemma incremented_nonNegative inv p n :
  0 < n → nonNegative inv → nonNegative (incremented inv p n).1.
Proof.
  intros Hn Hinv k a. rewrite incremented_lookup.
  case_bool_decide; [|apply Hinv]. subst.
  destruct (inv !! k) as [q|] eqn:Hq; [|done].
  intros [= <-]. specialize (Hinv _ _ Hq). simpl in Hinv. lia.
Qed.

Lemma issued_nonNegative items : ∀ inv,
  nonNegative inv → nonNegative (issued items inv).1.
Proof.
  induction items as [|item rest IH]; intros inv Hinv; simpl; [done|].
  case_bool_decide; simpl; [by apply IH|].
  apply IH. by apply decremented_nonNegative.
Qed.

Lemma restored_nonNegative items : ∀ inv,
  nonNegative inv → nonNegative (restored items inv).
Proof.
  induction items as [|item rest IH]; intros inv Hinv; simpl; [done|].
  case_bool_decide; [by apply IH|].
  apply IH. apply incremented_nonNegative; [lia|done].
Qed.


(** When every conditional decrement matched, each row lost exactly
    what the batch asked of its product. *)
Lemma issued_all_matched items : ∀ inv,
  firstUnmatched (issued items inv).2 = None →
  ∀ p, (issued items inv).1 !! p = (λ q, q - demand p items) <$> inv !! p.
Proof.
  induction items as [|item rest IH]; intros inv Hnone p; simpl in *.
  - destruct (inv !! p); simpl; [f_equal; lia|done].
  - case_bool_decide as Hskip; simpl in *.
    + rewrite (IH inv Hnone p). case_bool_decide as Hk; [destruct Hk; lia|done].
    + destruct (decremented_count inv (productId item) (quantity item))
        as [[Hc (q & Hq & Hle)]|[Hc _]]; rewrite Hc in Hnone; [|done].
      rewrite (IH _ Hnone p), decremented_lookup.
      case_bool_decide as Hk.
      * destruct Hk as [<- _]. rewrite bool_decide_true by (split; [done|lia]).
        rewrite Hq. simpl. f_equal. lia.
      * case_bool_decide as Hk'; [|done]. destruct Hk' as [Hk' _].
        exfalso. by apply Hk.
Qed.

Lemma mentions_elem p item items :
  item ∈ items → productId item = p → 0 < quantity item → (0 < mentions p items)%nat.
Proof.
  induction items as [|i rest IH]; [by intros ?%elem_of_nil|].
  intros [->|Hin]%elem_of_cons Hp Hq; simpl.
  - rewrite bool_decide_true by done. lia.
  - specialize (IH Hin Hp Hq). case_bool_decide; lia.
Qed.


(** For a batch in which no product is named by two items, every
    decrement matches exactly when the stock before the batch covers
    every item. *)
Lemma all_matched_iff_covered items : ∀ inv,
  (∀ p, (mentions p items ≤ 1)%nat) →
  firstUnmatched (issued items inv).2 = None
  ↔ ∀ item, item ∈ items → 0 < quantity item →
            ∃ q, inv !! productId item = Some q ∧ quantity item ≤ q.
Proof.
  induction items as [|i rest IH]; intros inv Honce; simpl.
  - split; [|done]. by intros _ item ?%elem_of_nil.
  - assert (∀ p, (mentions p rest ≤ 1)%nat) as Hrest.
    { intros p. specialize (Honce p). simpl in Honce. case_bool_decide; lia. }
    case_bool_decide as Hskip; simpl.
    + rewrite (IH inv Hrest). split.
      * intros H item [->|Hin]%elem_of_cons Hpos; [lia|by apply H].
      * intros H item Hin. apply H. by right.
    + assert (mentions (productId i) rest = 0%nat) as Hnone.
      { specialize (Honce (productId i)). simpl in Honce.
        rewrite bool_decide_true in Honce by (split; [done|lia]). lia. }
      destruct (decremented_count inv (productId i) (quantity i))
        as [[Hc (q & Hq & Hle)]|(Hc & Hsame & Hless)]; rewrite Hc.
      * rewrite (IH _ Hrest). split.
        -- intros H item [->|Hin]%elem_of_cons Hpos; [eauto|].
           destruct (H item Hin Hpos) as (q' & Hq' & Hle').
           rewrite decremented_lookup in Hq'. case_bool_decide as Hk; [|eauto].
           destruct Hk as [Hk _].
           pose proof (mentions_elem _ _ _ Hin (eq_sym Hk) Hpos). lia.
        -- intros H item Hin Hpos.
           destruct (H item (proj2 (elem_of_cons _ _ _) (or_intror Hin)) Hpos)
             as (q' & Hq' & Hle').
           exists q'. split; [|done]. rewrite decremented_lookup.
           case_bool_decide as Hk; [|done]. destruct Hk as [Hk _].
           pose proof (mentions_elem _ _ _ Hin (eq_sym Hk) Hpos). lia.
      * split; [done|]. intros H.
        destruct (H i (proj2 (elem_of_cons _ _ _) (or_introl eq_refl))) as (q & Hq & Hle);
          [lia|].
        specialize (Hless _ Hq). lia.
Qed.

Lemma restored_lookup items : ∀ inv p,
  restored items inv !! p = (λ q, q + demand p items) <$> inv !! p.
Proof.
  induction items as [|item rest IH]; intros inv p; simpl.
  - destruct (inv !! p); simpl; [f_equal; lia|done].
  - case_bool_decide as Hskip.
    + rewrite IH. case_bool_decide as Hk; [destruct Hk; lia|done].
    + rewrite IH, incremented_lookup. case_bool_decide as Hk.
      * subst. rewrite bool_decide_true by (split; [done|lia]).
        destruct (inv !! productId item); simpl; [f_equal; lia|done].
      * case_bool_decide as Hk'; [by destruct Hk'|done].
Qed.

End LedgerFacts.

(* ===================================================================== *)
(** ** The inventory ledger: non-negative stock, all-or-nothing batches,
       and restore after decrement                                       *)
(* ===================================================================== *)

Section InventoryClaims.

Import Inventory Ledger LedgerFacts.

Lemma decreaseStock_nonNegative items w :
  nonNegative (stock w) → nonNegative (stock (decreaseStock items w).2).
Proof.
  intros Hw. rewrite decreaseStock_run.
  destruct (firstUnmatched _); simpl; [done|].
  rewrite stock_setStock. by apply issued_nonNegative.
Qed.

Lemma increaseStock_nonNegative items w :
  nonNegative (stock w) → nonNegative (stock (increaseStock items w).2).
Proof.
  intros Hw. rewrite increaseStock_run. simpl.
  rewrite stock_setStock. by apply restored_nonNegative.
Qed.

Lemma applyOps_nonNegative ops : ∀ w,
  nonNegative (stock w) → nonNegative (stock (applyOps ops w)).
Proof.
  induction ops as [|op ops IH]; intros w Hw; simpl; [done|].
  apply IH. destruct op; simpl.
  - by apply decreaseStock_nonNegative.
  - by apply increaseStock_nonNegative.
Qed.

Lemma demand_nonneg p items : 0 ≤ demand p items.
Proof.
  induction items as [|item rest IH]; simpl; [done|].
  case_bool_decide as Hk; [destruct Hk; lia|done].
Qed.


(** The conditional update behind C1: a row is decremented only when
    it holds at least the requested quantity, and an increment of a
    positive quantity only raises it. *)
Lemma decrement_only_when_covered inv p n k q :
  (decremented inv p n).1 !! k = Some q →
  inv !! k = Some q ∨ (k = p ∧ ∃ q0, inv !! p = Some q0 ∧ n ≤ q0 ∧ q = q0 - n).
Proof.
  rewrite decremented_lookup. case_bool_decide as Hk; [|by left].
  destruct Hk as [<- Hc].
  destruct (decremented_count inv p n) as [[_ (q0 & Hq0 & Hle)]|[Hc' _]]; [|congruence].
  rewrite Hq0. intros [= <-]. right. eauto.
Qed.


(** When no product is named by two items of the batch, the call
    succeeds exactly when the stock before the call covers every item. *)
Lemma decreaseStock_succeeds_iff_covered items w :
  (∀ p, (mentions p items ≤ 1)%nat) →
  isOk (decreaseStock items w).1 = true
  ↔ ∀ item, item ∈ items → 0 < quantity item →
            ∃ q, stock w !! productId item = Some q ∧ quantity item ≤ q.
Proof.
  intros Honce. rewrite <-(all_matched_iff_covered items (stock w) Honce).
  rewrite decreaseStock_run. by destruct (firstUnmatched _).
Qed.

(** One item: the compare-and-decrement against the row of its
    product. *)
Lemma decreaseStock_single_item p n w :
  0 < n →
  decreaseStock [mkItem p n] w
  = match stock w !! p with
    | Some q =>
        if bool_decide (n ≤ q) then (Ok tt, setStock (<[p := q - n]> (stock w)) w)
        else (Throw (InsufficientStockError (insufficientReason p n q)), w)
    | None => (Throw (InsufficientStockError (notFoundReason p)), w)
    end.
Proof.
  intros Hn. rewrite decreaseStock_run. simpl.
  rewrite bool_decide_false by lia. simpl. unfold decremented, reasonFor.
  destruct (stock w !! p) as [q|] eqn:Hq; simpl.
  - case_bool_decide; simpl; [done|]. by rewrite Hq.
  - by rewrite Hq.
Qed.

(** A batch that was decremented is given back in full by
    increaseStock on the same batch. *)
Lemma decrease_increase_batch items w w1 :
  decreaseStock items w = (Ok tt, w1) → increaseStock items w1 = (Ok tt, w).
Proof.
  rewrite decreaseStock_run. destruct (firstUnmatched _) eqn:Hfirst; [done|].
  intros [= <-]. rewrite increaseStock_run, stock_setStock, setStock_setStock.
  f_equal. etrans; [|apply setStock_stock]. f_equal.
  apply map_eq. intros p.
  rewrite restored_lookup, (issued_all_matched _ _ Hfirst p).
  destruct (stock w !! p); simpl; [f_equal; lia|done].
Qed.

(** C8. For a product whose row holds Q, with 0 < N ≤ Q, decreaseStock
    of N for it succeeds and leaves Q - N, and increaseStock of N then
    returns the row (and the whole store) to its original state. *)
Theorem decrease_then_increase_restores (w : World) (p : string) (Q N : Z) :
  stock w !! p = Some Q → 0 < N → N ≤ Q →
  ∃ w1, decreaseStock [mkItem p N] w = (Ok tt, w1)
        ∧ stock w1 !! p = Some (Q - N)
        ∧ increaseStock [mkItem p N] w1 = (Ok tt, w)
        ∧ stock (increaseStock [mkItem p N] w1).2 !! p = Some Q.
Proof.
  intros HQ HN HNQ.
  assert (decreaseStock [mkItem p N] w
          = (Ok tt, setStock (<[p := Q - N]> (stock w)) w)) as Hdec.
  { rewrite decreaseStock_run. simpl.
    rewrite bool_decide_false by lia. simpl.
    unfold decremented. rewrite HQ, bool_decide_true by lia. done. }
  eexists. split; [exact Hdec|].
  pose proof (decrease_increase_batch _ _ _ Hdec) as Hinc.
  split_and!; [|done|].
  - rewrite stock_setStock. apply lookup_insert_eq.
  - by rewrite Hinc.
Qed.

End InventoryClaims.

Section InventoryWitnesses.

Import Inventory Ledger Saga.

Lemma sampleWorld_nonNegative : nonNegative (stock sampleWorld).
Proof.
  intros k q Hk. unfold stock in Hk. simpl in Hk.
  apply lookup_singleton_Some in Hk as [_ <-]. done.
Qed.


Lemma decrease_then_increase_restores_witness :
  ∃ w1, decreaseStock [mkItem "productA" 1] sampleWorld = (Ok tt, w1)
        ∧ stock w1 !! "productA" = Some (1 - 1)
        ∧ increaseStock [mkItem "productA" 1] w1 = (Ok tt, sampleWorld)
        ∧ stock (increaseStock [mkItem "productA" 1] w1).2 !! "productA" = Some 1.
Proof.
  apply (decrease_then_increase_restores sampleWorld "productA" 1 1);
    [reflexivity | lia | lia].
Defined.

(** The scenario of the specification: one unit in stock, two
    requested. The batch is refused, the message cites the product and
    the single unit available, and the store is untouched. *)
Example decreaseStock_shortage :
  decreaseStock [mkItem "productA" 2] sampleWorld
  = (Throw (InsufficientStockError
              "Insufficient stock for Product ID: productA. Required: 2, Available: 1."),
     sampleWorld).
Proof. reflexivity. Qed.

(** A later item of the same batch that cannot be covered undoes the
    earlier decrement of the batch. *)
Example decreaseStock_partial_batch_rolls_back :
  decreaseStock [mkItem "productA" 1; mkItem "productB" 1] sampleWorld
  = (Throw (InsufficientStockError "Product ID: productB not found in inventory."),
     sampleWorld).
Proof. reflexivity. Qed.

End InventoryWitnesses.

(* ===================================================================== *)
(** ** The payment ledger behind the charge and refund activities        *)
(* ===================================================================== *)

Section PaymentClaims.

Import Activities Saga.

Ltac run_prisma :=
  unfold refundPayment_impl, chargePayment_impl, Payment.refund, Payment.charge,
    paymentTransaction_update, paymentTransaction_updateExternal,
    paymentTransaction_findUnique, paymentTransaction_create,
    uuid, Math_random, logGateway,
    tryCatch, bind, get, modify, throw, ret;
  simpl.

Lemma externalIdTaken_true id x (t : gmap string PaymentTransaction.t) k row :
  t !! k = Some row → k ≠ id → PaymentTransaction.externalTransactionId row = Some x →
  externalIdTaken id x t = true.
Proof.
  intros Hk Hne Hx. unfold externalIdTaken. apply bool_decide_eq_true.
  exists k, row. done.
Qed.

Lemma externalIdTaken_false id x (t : gmap string PaymentTransaction.t) :
  (∀ k row, t !! k = Some row → k ≠ id →
            PaymentTransaction.externalTransactionId row ≠ Some x) →
  externalIdTaken id x t = false.
Proof.
  intros Hfree. unfold externalIdTaken. apply bool_decide_eq_false.
  intros (k & row & Hk & Hne & Hx). by eapply Hfree.
Qed.

(** *** PaymentService.refund on its own follows the protocol *)

(** The service leaves a transaction that is not SUCCEEDED alone. *)
Lemma refund_not_succeeded_noop (w : World) (id : string) (row : PaymentTransaction.t) :
  payments w !! id = Some row →
  PaymentTransaction.status row ≠ PaymentStatus.SUCCEEDED →
  Payment.refund id w = (Ok tt, w).
Proof.
  intros Hrow Hst. unfold payments in *. run_prisma. rewrite Hrow.
  rewrite bool_decide_true by done. done.
Qed.

(** On a SUCCEEDED transaction the service calls the gateway and
    records REFUNDED, or records REFUND_FAILED and throws. *)
Lemma refund_succeeded_calls_gateway (w : World) (id : string)
    (row : PaymentTransaction.t) :
  payments w !! id = Some row →
  PaymentTransaction.status row = PaymentStatus.SUCCEEDED →
  let accepted := Payment.gt (randoms w (randomsDrawn w)) (Qmake 5 100) in
  isOk (Payment.refund id w).1 = accepted
  ∧ payments (Payment.refund id w).2
    = <[id := PaymentTransaction.withStatus
                (if accepted then PaymentStatus.REFUNDED else PaymentStatus.REFUND_FAILED)
                row]> (payments w)
  ∧ gatewayCalls (Payment.refund id w).2
    = (gatewayCalls w ++ [GatewayRefund id accepted])%list.
Proof.
  intros Hrow Hst. destruct w as [[o p i pr] u un r rn g s]. unfold payments in *.
  simpl in *. run_prisma. rewrite Hrow.
  rewrite bool_decide_false by (intros H; by apply H).
  simpl. rewrite Hrow. simpl.
  destruct (Payment.gt (r rn) (Qmake 5 100)); simpl; rewrite lookup_insert_eq; simpl.
  - split_and!; [done| |done]. by rewrite insert_insert_eq.
  - split_and!; [done| |done]. by rewrite insert_insert_eq.
Qed.

(** *** The refundPayment activity *)

(** C4 (what the code does). The refundPayment activity first writes
    REFUND_INITIATED itself, so PaymentService.refund never finds the
    transaction SUCCEEDED and returns without calling the gateway; the
    activity then writes REFUNDED and returns normally. This holds for
    every existing record, in particular for a SUCCEEDED one and
    whatever the gateway would have answered: no gateway refund is
    made, no random draw is consumed, and REFUND_FAILED is never
    reached. *)
Theorem refundPayment_marks_refunded_without_gateway
    (w : World) (id : string) (row : PaymentTransaction.t) :
  payments w !! id = Some row →
  ∃ w', refundPayment_impl id w = (Ok tt, w')
        ∧ payments w'
          = <[id := PaymentTransaction.withStatus PaymentStatus.REFUNDED row]> (payments w)
        ∧ gatewayCalls w' = gatewayCalls w
        ∧ randomsDrawn w' = randomsDrawn w.
Proof.
  intros Hrow. destruct w as [[o p i pr] u un r rn g s]. unfold payments in *. simpl in *.
  run_prisma. rewrite Hrow. simpl. rewrite lookup_insert_eq. simpl.
  rewrite lookup_insert_eq. simpl.
  eexists. split; [done|]. simpl. rewrite insert_insert_eq. done.
Qed.

(** The sample store holds a SUCCEEDED payment, and its next random
    draw (0.01) is one on which the gateway refuses the refund. *)
Lemma refundPayment_marks_refunded_without_gateway_witness :
  PaymentTransaction.status
    (PaymentTransaction.mk "order-1" (Some "MOCK_TX_1") (Qmake 20 1) PaymentStatus.SUCCEEDED)
    = PaymentStatus.SUCCEEDED
  ∧ Payment.gt (randoms sampleWorld (randomsDrawn sampleWorld)) (Qmake 5 100) = false
  ∧ ∃ w', refundPayment_impl "pay-1" sampleWorld = (Ok tt, w')
        ∧ payments w'
          = <["pay-1" := PaymentTransaction.withStatus PaymentStatus.REFUNDED
               (PaymentTransaction.mk "order-1" (Some "MOCK_TX_1") (Qmake 20 1)
                  PaymentStatus.SUCCEEDED)]> (payments sampleWorld)
        ∧ gatewayCalls w' = gatewayCalls sampleWorld
        ∧ randomsDrawn w' = randomsDrawn sampleWorld.
Proof.
  split; [reflexivity|]. split; [reflexivity|].
  apply (refundPayment_marks_refunded_without_gateway sampleWorld "pay-1").
  reflexivity.
Defined.

(** *** The chargePayment activity *)

(** C5 (what the code does). One invocation of the chargePayment
    activity creates two PaymentTransaction rows: the activity creates
    one and PaymentService.charge creates another. With an existing
    order, two fresh distinct ids and an unused external id, the
    service's row ends SUCCEEDED (carrying the external id) or FAILED
    according to the gateway, while the activity's own row always ends
    FAILED and the activity always throws PaymentFailedError: when the
    gateway accepts, writing the same external id on the second row
    violates the unique constraint on that column. *)
Theorem chargePayment_creates_two_rows (w : World) (orderId : string) (amount : number) :
  let idA := uuids w (uuidsDrawn w) in
  let idB := uuids w (S (uuidsDrawn w)) in
  let tx := "MOCK_TX_" +:+ Payment.toUpperCase (uuids w (S (S (uuidsDrawn w)))) in
  let accepted := Payment.gt (randoms w (randomsDrawn w)) (Qmake 15 100) in
  is_Some (order (db w) !! orderId) →
  payments w !! idA = None → payments w !! idB = None → idA ≠ idB →
  (∀ k row, payments w !! k = Some row →
            PaymentTransaction.externalTransactionId row ≠ Some tx) →
  ∃ e w', chargePayment_impl orderId amount w = (Throw e, w')
    ∧ Js.name e = "PaymentFailedError"
    ∧ payments w'
      = <[idA := PaymentTransaction.mk orderId None amount PaymentStatus.FAILED]>
          (<[idB := if accepted
                    then PaymentTransaction.mk orderId (Some tx) amount PaymentStatus.SUCCEEDED
                    else PaymentTransaction.mk orderId None amount PaymentStatus.FAILED]>
             (payments w))
    ∧ size (payments w') = S (S (size (payments w))).
Proof.
  destruct w as [[o p i pr] u un r rn g s]. unfold payments. simpl.
  intros Horder HA HB Hne Hfree.
  run_prisma. rewrite HA. simpl.
  rewrite (bool_decide_true _ Horder). simpl.
  rewrite lookup_insert_ne, HB by done. simpl.
  rewrite (bool_decide_true _ Horder). simpl.
  destruct (Payment.gt (r rn) (Qmake 15 100)); simpl.
  - rewrite lookup_insert_eq.
    rewrite externalIdTaken_false; simpl.
    2:{ intros k row Hk Hkne. rewrite !lookup_insert_ne in Hk by done.
        apply lookup_insert_Some in Hk as [[_ <-]|[_ Hk]]; [done|by eapply Hfree]. }
    rewrite lookup_insert_ne, lookup_insert_ne, lookup_insert_eq by done. simpl.
    erewrite externalIdTaken_true; [| apply lookup_insert_eq | done | done ]. simpl.
    rewrite lookup_insert_ne, lookup_insert_ne, lookup_insert_eq by done. simpl.
    do 2 eexists. do 2 (split; [done|]). simpl.
    match goal with |- ?l = ?r ∧ _ => assert (l = r) as Heq end.
    { apply map_eq. intros k. rewrite !lookup_insert.
      repeat case_decide; simplify_eq/=; done. }
    split; [exact Heq|]. rewrite Heq.
    rewrite !map_size_insert_None; [done|done|by rewrite lookup_insert_ne].
  - rewrite lookup_insert_eq. simpl.
    rewrite lookup_insert_ne, lookup_insert_ne, lookup_insert_eq by done. simpl.
    do 2 eexists. do 2 (split; [done|]). simpl.
    match goal with |- ?l = ?r ∧ _ => assert (l = r) as Heq end.
    { apply map_eq. intros k. rewrite !lookup_insert.
      repeat case_decide; simplify_eq/=; done. }
    split; [exact Heq|]. rewrite Heq.
    rewrite !map_size_insert_None; [done|done|by rewrite lookup_insert_ne].
Qed.

(** On the sample store the gateway declines (the draw is 0.01): both
    new rows end FAILED. *)
Lemma chargePayment_creates_two_rows_witness :
  ∃ e w', chargePayment_impl "order-1" (Qmake 20 1) sampleWorld = (Throw e, w')
    ∧ Js.name e = "PaymentFailedError"
    ∧ payments w'
      = <["uuid-0" := PaymentTransaction.mk "order-1" None (Qmake 20 1) PaymentStatus.FAILED]>
          (<["uuid-1" := PaymentTransaction.mk "order-1" None (Qmake 20 1)
                           PaymentStatus.FAILED]>
             (payments sampleWorld))
    ∧ size (payments w') = S (S (size (payments sampleWorld))).
Proof.
  apply (chargePayment_creates_two_rows sampleWorld "order-1" (Qmake 20 1)).
  - by eexists.
  - reflexivity.
  - reflexivity.
  - vm_compute. discriminate.
  - intros k row Hk. unfold payments in Hk. simpl in Hk.
    apply lookup_singleton_Some in Hk as [_ <-]. vm_compute. discriminate.
Defined.

(** Whatever the store, the chargePayment activity never returns
    normally. *)
Theorem chargePayment_never_returns (w : World) (orderId : string) (amount : number) :
  isOk (chargePayment_impl orderId amount w).1 = false.
Proof.
  destruct w as [[o p i pr] u un r rn g s].
  run_prisma.
  case_bool_decide as HA; simpl; [done|].
  case_bool_decide as Horder; simpl; [|done].
  case_bool_decide as HB; simpl.
  { rewrite lookup_insert_eq. simpl. done. }
  assert (u (S un) ≠ u un) as Hne.
  { intros Heq. apply HB. rewrite Heq, lookup_insert_eq. by eexists. }
  rewrite (bool_decide_true _ Horder). simpl.
  destruct (Payment.gt (r rn) (Qmake 15 100)); simpl.
  - rewrite lookup_insert_eq.
    destruct (externalIdTaken (u (S un)) _ _) eqn:Htaken; simpl.
    + rewrite lookup_insert_ne, lookup_insert_eq by done. simpl. done.
    + rewrite lookup_insert_ne, lookup_insert_ne, lookup_insert_eq by done. simpl.
      erewrite externalIdTaken_true; [| apply lookup_insert_eq | done | done ]. simpl.
      rewrite lookup_insert_ne, lookup_insert_ne, lookup_insert_eq by done. simpl. done.
  - rewrite lookup_insert_eq. simpl.
    rewrite lookup_insert_ne, lookup_insert_ne, lookup_insert_eq by done. simpl. done.
Qed.

End PaymentClaims.

(* ===================================================================== *)
(** ** The workflow: forward steps, classification, compensation         *)
(* ===================================================================== *)

Section WorkflowFacts.
Import Activities Temporal Workflow Saga.
Context {St : Type}.
Variables forward compensation : OrderActivitie St Failure.

Ltac wf_unfold :=
  unfold execute, processOrderWorkflow, tryBlock, catchBlock, compensate, await,
    setOrderId, setPaymentRecordId, setInventoryUpdated, setFinalStatus, setFailureReason,
    start, tryCatch, bind, get, modify, throw, ret.

(** Case analysis on the outcome of the next activity call. *)
Ltac next_call :=
  match goal with
  | |- context [createPendingOrder ?a ?x ?s] =>
      destruct (createPendingOrder a x s) as [[?|?] ?] eqn:?
  | |- context [updateOrderStatus ?a ?x ?y ?s] =>
      destruct (updateOrderStatus a x y s) as [[?|?] ?] eqn:?
  | |- context [chargePayment ?a ?x ?y ?s] =>
      destruct (chargePayment a x y s) as [[?|?] ?] eqn:?
  | |- context [validateAndDecreaseInventory ?a ?x ?y ?s] =>
      destruct (validateAndDecreaseInventory a x y s) as [[?|?] ?] eqn:?
  | |- context [notifyKitchen ?a ?x ?y ?s] =>
      destruct (notifyKitchen a x y s) as [[?|?] ?] eqn:?
  | |- context [sendConfirmationEmail ?a ?x ?y ?s] =>
      destruct (sendConfirmationEmail a x y s) as [[?|?] ?] eqn:?
  | |- context [refundPayment ?a ?x ?s] =>
      destruct (refundPayment a x s) as [[?|?] ?] eqn:?
  | |- context [restoreInventory ?a ?x ?y ?s] =>
      destruct (restoreInventory a x y s) as [[?|?] ?] eqn:?
  | |- context [sendFailureEmail ?a ?x ?y ?z ?s] =>
      destruct (sendFailureEmail a x y z s) as [[?|?] ?] eqn:?
  end; simpl.

Lemma allCompleted_forallb h : allCompleted h ↔ forallb completed h = true.
Proof.
  unfold allCompleted. rewrite forallb_forall, Forall_forall.
  split; intros H e He; apply H; by apply list_elem_of_In.
Qed.

Lemma compensate_run input (r0 : Run St) :
  let res := (compensate compensation input (default "" (orderId r0)) r0).1 in
  let r := (compensate compensation input (default "" (orderId r0)) r0).2 in
  ∃ events,
    history r = (history r0 ++ events)%list
    ∧ sequentialRun (compensationPlan input r0) events
    ∧ Forall (λ e, isCompensation (call e) = true) events
    ∧ isOk res = forallb completed events
    ∧ orderId r = orderId r0 ∧ paymentRecordId r = paymentRecordId r0
    ∧ inventoryUpdated r = inventoryUpdated r0 ∧ finalStatus r = finalStatus r0
    ∧ failureReason r = failureReason r0.
Proof.
  unfold compensationPlan. wf_unfold. simpl.
  destruct (truthy (paymentRecordId r0)) eqn:Hpaid; simpl;
    [next_call|]; destruct (inventoryUpdated r0) eqn:Hupdated; simpl;
    repeat next_call;
    rewrite <-?app_assoc; eexists; (split; [reflexivity|]); simpl;
    split_and!; try done; repeat constructor.
Qed.

Lemma sequentialRun_all_completed plan events :
  sequentialRun plan events → allCompleted events → map call events = plan.
Proof.
  revert events. induction plan as [|c plan IH]; intros [|e events]; simpl; try done.
  intros [<- Hrest] Hall. apply Forall_cons in Hall as [He Hall].
  rewrite He in Hrest. f_equal. by apply IH.
Qed.


Lemma sequentialRun_stops plan events i e :
  sequentialRun plan events → events !! i = Some e → completed e = false →
  length events = S i.
Proof.
  revert events i. induction plan as [|c plan IH]; intros [|e' events] i; simpl; try done.
  intros [<- Hrest] Hi He. destruct i as [|i]; simpl in *.
  - injection Hi as ->. rewrite He in Hrest. by subst.
  - destruct (completed e').
    + f_equal. by eapply IH.
    + subst. done.
Qed.

Lemma filter_all {A} (P : A → Prop) `{∀ x, Decision (P x)} (l : list A) :
  Forall P l → filter P l = l.
Proof.
  induction 1 as [|x l Hx Hl IH]; [done|].
  rewrite filter_cons_True by done. by f_equal.
Qed.

Lemma filter_none {A} (P : A → Prop) `{∀ x, Decision (P x)} (l : list A) :
  Forall (λ x, ¬ P x) l → filter P l = [].
Proof.
  induction 1 as [|x l Hx Hl IH]; [done|].
  by rewrite filter_cons_False.
Qed.

(** The [try] block from fresh local variables. *)
Lemma tryBlock_run input s :
  let res := (tryBlock forward input (start s)).1 in
  let r := (tryBlock forward input (start s)).2 in
  Forall (λ e, isCompensation (call e) = false) (history r)
  ∧ isOk res = forallb completed (history r)
  ∧ failureReason r = "Unknown Workflow Failure"
  ∧ isSet (paymentRecordId r) = completedSome isCharge (history r)
  ∧ inventoryUpdated r = completedSome isDecrease (history r)
  ∧ ∃ oid, sequentialRun (forwardPlan input oid) (history r)
           ∧ match res with
             | Ok out => out = mkOutput oid OrderStatus.COMPLETED
                         ∧ orderId r = Some oid
                         ∧ finalStatus r = OrderStatus.COMPLETED
                         ∧ (createPendingOrder forward (orderData input) s).1 = Ok oid
             | Throw err =>
                 orderId r = Some oid
                 ∨ orderId r = None
                   ∧ r = mkRun None None false OrderStatus.PENDING "Unknown Workflow Failure"
                           [mkEvent (CreatePendingOrder (orderData input)) false]
                           (createPendingOrder forward (orderData input) s).2
                   ∧ (createPendingOrder forward (orderData input) s).1 = Throw err
             end.
Proof.
  wf_unfold. simpl.
  next_call; [|split_and!; [repeat constructor|done..|];
               exists ""; split; [done|]; right; done].
  repeat (next_call;
          [|split_and!; [repeat constructor|done..|];
            eexists; split; [simpl; done|]; left; done]).
  split_and!; [repeat constructor|done..|].
  eexists. split; [simpl; done|]. done.
Qed.


Lemma catchBlock_run input err (r0 : Run St) :
  let res := (catchBlock compensation input err r0).1 in
  let r := (catchBlock compensation input err r0).2 in
  finalStatus r = (classify err).1
  ∧ orderId r = orderId r0
  ∧ paymentRecordId r = paymentRecordId r0
  ∧ inventoryUpdated r = inventoryUpdated r0
  ∧ compensationPlan input r = compensationPlan input (classified r0 err)
  ∧ ∃ events,
      history r = (history r0 ++ events)%list
      ∧ Forall (λ e, isCompensation (call e) = true) events
      ∧ (if truthy (orderId r0)
         then sequentialRun (compensationPlan input r) events
         else events = [] ∧ env r = env r0)
      ∧ if forallb completed events
        then res = Ok (mkOutput (default "N/A" (orderId r0)) (classify err).1)
        else ∃ compensationError, res = Throw (compensationFailed compensationError err).
Proof.
  unfold catchBlock, setFinalStatus, setFailureReason, tryCatch, bind, get, modify,
    throw, ret. simpl. fold (classified r0 err).
  destruct (truthy (orderId r0)) eqn:Hid.
  - pose proof (compensate_run input (classified r0 err)) as Hc. simpl in Hc.
    destruct (compensate compensation input (default "" (orderId r0)) (classified r0 err))
      as [[[]|compErr] r] eqn:Hrun; simpl in *;
      destruct Hc as (events & Hh & Hseq & Hcomp & Hok & Ho & Hp & Hi & Hf & Hr).
    + unfold compensationPlan. rewrite Ho, Hp, Hi, Hf, Hr. simpl.
      split_and!; [done..|]. exists events. rewrite <-Hok. split_and!; [done..| |].
      * unfold compensationPlan in Hseq. simpl in Hseq. done.
      * done.
    + unfold compensationPlan. rewrite Ho, Hp, Hi, Hf, Hr. simpl.
      split_and!; [done..|]. exists events. rewrite <-Hok. split_and!; [done..| |].
      * unfold compensationPlan in Hseq. simpl in Hseq. done.
      * by eexists.
  - simpl. split_and!; [done..|]. exists []. rewrite app_nil_r. split_and!; done.
Qed.
Lemma execute_unfold input s :
  execute forward compensation input s
  = match tryBlock forward input (start s) with
    | (Ok out, r) => (Ok out, r)
    | (Throw err, r) => catchBlock compensation input err r
    end.
Proof. done. Qed.

Lemma classify_range err :
  (classify err).1 = OrderStatus.PAYMENT_FAILED
  ∨ (classify err).1 = OrderStatus.INVENTORY_CHECK_FAILED
  ∨ (classify err).1 = OrderStatus.CANCELLED.
Proof.
  destruct err as [m cause| |]; simpl; auto.
  destruct (causeIs cause _ _); simpl; auto.
  destruct (causeIs cause _ _); simpl; auto.
Qed.

Lemma not_allCompleted h : forallb completed h = false → ¬ allCompleted h.
Proof. intros Hf Hall%allCompleted_forallb. congruence. Qed.

(** How a run splits into the events of the [try] block and those of
    the compensation. *)
Lemma execute_events input s :
  let res := (execute forward compensation input s).1 in
  let r := (execute forward compensation input s).2 in
  let tried := tryBlock forward input (start s) in
  forwardEvents (history r) = history tried.2
  ∧ (history r = history tried.2 ++ compensationEvents (history r))%list
  ∧ isSet (paymentRecordId r) = completedSome isCharge (forwardEvents (history r))
  ∧ inventoryUpdated r = completedSome isDecrease (forwardEvents (history r))
  ∧ match tried.1 with
    | Ok out =>
        res = Ok out ∧ r = tried.2 ∧ allCompleted (history r)
        ∧ compensationEvents (history r) = []
    | Throw err =>
        ¬ allCompleted (history tried.2)
        ∧ finalStatus r = (classify err).1
        ∧ orderId r = orderId tried.2
        ∧ (if truthy (orderId r)
           then sequentialRun (compensationPlan input r) (compensationEvents (history r))
           else compensationEvents (history r) = [])
        ∧ if forallb completed (compensationEvents (history r))
          then res = Ok (mkOutput (default "N/A" (orderId r)) (finalStatus r))
          else ∃ compensationError,
                 res = Throw (compensationFailed compensationError err)
    end.
Proof.
  simpl. rewrite execute_unfold.
  pose proof (tryBlock_run input s) as (Hfwd & Hok & _ & Hpaid & Hdec & _). simpl in *.
  destruct (tryBlock forward input (start s)) as [[out|err] r1]; simpl in *.
  - unfold forwardEvents, compensationEvents.
    rewrite filter_all by done.
    rewrite filter_none by (eapply Forall_impl; [exact Hfwd|]; simpl; congruence).
    rewrite app_nil_r. split_and!; try done. by apply allCompleted_forallb.
  - pose proof (catchBlock_run input err r1)
      as (Hst & Ho & Hp & Hi & _ & events & Hh & Hcomp & Hseq & Hres).
    simpl in *.
    destruct (catchBlock compensation input err r1) as [res r]; simpl in *.
    assert (forwardEvents (history r) = history r1) as Hf.
    { unfold forwardEvents. rewrite Hh, filter_app, filter_all by done.
      rewrite filter_none by (eapply Forall_impl; [exact Hcomp|]; simpl; congruence).
      by rewrite app_nil_r. }
    assert (compensationEvents (history r) = events) as Hc.
    { unfold compensationEvents. rewrite Hh, filter_app, (filter_all _ events) by done.
      by rewrite filter_none by (eapply Forall_impl; [exact Hfwd|]; simpl; congruence). }
    rewrite Hf, Hc, Ho, Hst, Hp, Hi. split_and!; try done.
    + by apply not_allCompleted.
    + destruct (truthy (orderId r1)); [done|]. by destruct Hseq.
Qed.


(** C10. When the first step (createPendingOrder) fails, the run makes
    no other activity call, in particular none of the four compensation
    calls, and returns normally with the literal order id N/A and the
    status the failure is classified to. *)
Theorem no_order_id_no_compensation input s err s1 :
  createPendingOrder forward (orderData input) s = (Throw err, s1) →
  execute forward compensation input s
  = (Ok (mkOutput "N/A" (classify err).1),
     mkRun None None false (classify err).1 (classify err).2
           [mkEvent (CreatePendingOrder (orderData input)) false] s1)
  ∧ compensationEvents (history (execute forward compensation input s).2) = [].
Proof.
  intros Hcreate.
  assert (execute forward compensation input s
          = (Ok (mkOutput "N/A" (classify err).1),
             mkRun None None false (classify err).1 (classify err).2
                   [mkEvent (CreatePendingOrder (orderData input)) false] s1)) as ->.
  { wf_unfold. simpl. rewrite Hcreate. done. }
  done.
Qed.

(** C3 (as the code has it). In every run in which a forward step
    failed and a non-empty order id was obtained, the compensation
    calls made are a run of the applicable steps, in the order refund
    (when a payment record id exists), inventory restore (when the
    inventory was decremented), terminal status update, failure
    notification, that stops at the first failure: each step is
    attempted once every applicable step before it completed, and no
    step is attempted after one that failed. So every applicable step
    is attempted when none of them fails, the first applicable step is
    always attempted, and a failed step is the last one attempted. *)
Theorem compensation_runs_until_first_failure input s :
  let r := (execute forward compensation input s).2 in
  ¬ allCompleted (forwardEvents (history r)) →
  truthy (orderId r) = true →
  sequentialRun (compensationPlan input r) (compensationEvents (history r))
  ∧ compensationEvents (history r) ≠ []
  ∧ (allCompleted (compensationEvents (history r)) → allCompensationAttempted input r)
  ∧ (∀ i e, compensationEvents (history r) !! i = Some e → completed e = false →
            length (compensationEvents (history r)) = S i)
  ∧ isSet (paymentRecordId r) = completedSome isCharge (forwardEvents (history r))
  ∧ inventoryUpdated r = completedSome isDecrease (forwardEvents (history r)).
Proof.
  cbv zeta. intros Hfailed Hid.
  pose proof (execute_events input s) as (Hf & Hh & Hpaid & Hdec & Hcase). cbv zeta in *.
  destruct (tryBlock forward input (start s)) as [[out|err] r1]; cbn [fst snd] in *.
  - destruct Hcase as (_ & _ & Hall & _). exfalso. apply Hfailed.
    rewrite Hh in Hall. rewrite Hf. by apply Forall_app in Hall as [? _].
  - destruct Hcase as (_ & _ & _ & Hseq & _). rewrite Hid in Hseq.
    split_and!; [done| | | |done|done].
    + intros Hnil. rewrite Hnil in Hseq. unfold compensationPlan in Hseq.
      destruct (truthy (paymentRecordId _)), (inventoryUpdated _); simpl in Hseq; done.
    + intros Hall c Hc. unfold attempted.
      rewrite <-(sequentialRun_all_completed _ _ Hseq Hall) in Hc.
      rewrite Hh, map_app. apply elem_of_app. by right.
    + intros i e. by eapply sequentialRun_stops.
Qed.


End WorkflowFacts.

Section WorkflowScenarios.

Import Activities Temporal Workflow Saga Ledger.

(** Against C3 as stated. The charge is declined, and during
    compensation the status update fails: the run obtained an order id
    and a forward step failed, yet the failure notification, an
    applicable compensation step, is never attempted. *)
Lemma compensation_stops_before_notification :
  let r := (execute (scripted chargeDeclined) (scripted statusUpdateDown) sampleInput tt).2 in
  ¬ allCompleted (forwardEvents (history r))
  ∧ truthy (orderId r) = true
  ∧ map call (history r)
    = [ CreatePendingOrder (orderData sampleInput);
        UpdateOrderStatus "order-1" OrderStatus.PROCESSING;
        ChargePayment "order-1" (Qmake 20 1);
        UpdateOrderStatusCompensation "order-1" OrderStatus.PAYMENT_FAILED ]
  ∧ ¬ allCompensationAttempted sampleInput r.
Proof.
  cbv zeta. split_and!.
  - apply not_allCompleted. reflexivity.
  - reflexivity.
  - reflexivity.
  - intros Hall.
    specialize (Hall (SendFailureEmailCompensation "order-1" "customer@example.com"
                        "Payment was declined or failed.")).
    unfold attempted in Hall.
    assert (map call (history (execute (scripted chargeDeclined) (scripted statusUpdateDown)
                                 sampleInput tt).2)
            = [ CreatePendingOrder (orderData sampleInput);
                UpdateOrderStatus "order-1" OrderStatus.PROCESSING;
                ChargePayment "order-1" (Qmake 20 1);
                UpdateOrderStatusCompensation "order-1" OrderStatus.PAYMENT_FAILED ]) as Hh
      by reflexivity.
    rewrite Hh in Hall.
    assert (SendFailureEmailCompensation "order-1" "customer@example.com"
              "Payment was declined or failed."
            ∈ compensationPlan sampleInput
                (execute (scripted chargeDeclined) (scripted statusUpdateDown)
                   sampleInput tt).2) as Hin.
    { apply list_elem_of_lookup. exists 1%nat. reflexivity. }
    specialize (Hall Hin).
    repeat (apply elem_of_cons in Hall as [Hall|Hall]; [discriminate|]).
    by apply elem_of_nil in Hall.
Qed.



Lemma no_order_id_no_compensation_witness :
  execute (scripted createDown) (scripted allGood) sampleInput tt
  = (Ok (mkOutput "N/A" OrderStatus.CANCELLED),
     mkRun None None false OrderStatus.CANCELLED
           "Activity execution failed: Can't reach database server"
           [mkEvent (CreatePendingOrder (orderData sampleInput)) false] tt)
  ∧ compensationEvents
      (history (execute (scripted createDown) (scripted allGood) sampleInput tt).2) = [].
Proof.
  apply (no_order_id_no_compensation (scripted createDown) (scripted allGood)
           sampleInput tt outage tt).
  reflexivity.
Defined.

Lemma compensation_runs_until_first_failure_witness :
  let r := (execute (scripted chargeDeclined) (scripted statusUpdateDown) sampleInput tt).2 in
  sequentialRun (compensationPlan sampleInput r) (compensationEvents (history r))
  ∧ compensationEvents (history r) ≠ []
  ∧ (allCompleted (compensationEvents (history r)) → allCompensationAttempted sampleInput r)
  ∧ (∀ i e, compensationEvents (history r) !! i = Some e → completed e = false →
            length (compensationEvents (history r)) = S i)
  ∧ isSet (paymentRecordId r) = completedSome isCharge (forwardEvents (history r))
  ∧ inventoryUpdated r = completedSome isDecrease (forwardEvents (history r)).
Proof.
  apply (compensation_runs_until_first_failure (scripted chargeDeclined)
           (scripted statusUpdateDown) sampleInput tt).
  - apply not_allCompleted. reflexivity.
  - reflexivity.
Defined.


(** The workflow as the worker runs it, on the sample store: the order
    is created, the charge fails, the order is marked PAYMENT_FAILED and
    the customer is told; two payment rows were written. *)
Example worker_run :
  let out := run createOrderActivities sampleInput sampleWorld in
  out.1 = Ok (mkOutput "uuid-0" OrderStatus.PAYMENT_FAILED)
  ∧ map call (history out.2)
    = [ CreatePendingOrder (orderData sampleInput);
        UpdateOrderStatus "uuid-0" OrderStatus.PROCESSING;
        ChargePayment "uuid-0" (Qmake 20 1);
        UpdateOrderStatusCompensation "uuid-0" OrderStatus.PAYMENT_FAILED;
        SendFailureEmailCompensation "uuid-0" "customer@example.com"
          "Payment was declined or failed." ]
  ∧ sent (env out.2)
    = [ FailureEmail "customer@example.com" "uuid-0" "Payment was declined or failed." ]
  ∧ size (payments (env out.2)) = 3%nat
  ∧ stock (env out.2) = stock sampleWorld.
Proof. cbv zeta. split_and!; reflexivity. Qed.

End WorkflowScenarios.

(* ===================================================================== *)
(** ** Classification of failures and the retry policy                   *)
(* ===================================================================== *)

Section ClassifierClaims.

Import Activities Temporal Workflow Saga.


(** An activity that keeps throwing a retryable error uses every
    attempt. *)
Lemma runAttempts_exhausted {St A} (p : RetryPolicy) (act : M St Error A) e left :
  isNonRetryable p e = false →
  (∀ s, ∃ s', act s = (Throw e, s')) →
  ∀ attempt s,
    (runAttempts p act left attempt s).2 = map (retryInterval p) (seq attempt left)
    ∧ (runAttempts p act left attempt s).1.1 = Throw e.
Proof.
  intros Hretry Hfails. induction left as [|left IH]; intros attempt s; simpl.
  - destruct (Hfails s) as [s' ->]. by rewrite Hretry.
  - destruct (Hfails s) as [s' ->]. rewrite Hretry.
    specialize (IH (S attempt) s').
    destruct (runAttempts p act left (S attempt) s') as [[r s''] waits]. simpl in *.
    destruct IH as [-> ->]. done.
Qed.







End ClassifierClaims.

(* ===================================================================== *)
(** ** More on the inventory ledger                                      *)
(* ===================================================================== *)

Section InventoryMore.

Import Inventory Ledger LedgerFacts Saga Further.

Lemma demand_unmentioned p items : mentions p items = 0%nat → demand p items = 0.
Proof.
  induction items as [|item rest IH]; simpl; [done|].
  case_bool_decide; [done|]. exact IH.
Qed.

(** Every conditional decrement of a batch matches exactly when each
    product the batch names has a row that covers the total the batch
    asks of it. *)
Lemma all_matched_iff_demand items : ∀ inv,
  firstUnmatched (issued items inv).2 = None
  ↔ ∀ p, (0 < mentions p items)%nat → ∃ q, inv !! p = Some q ∧ demand p items ≤ q.
Proof.
  induction items as [|i rest IH]; intros inv; simpl.
  - split; [|done]. intros _ p Hp. lia.
  - case_bool_decide as Hskip; simpl.
    + rewrite (IH inv). split; intros H p Hp.
      * rewrite bool_decide_false in Hp |- * by (intros [_ ?]; lia). by apply H.
      * specialize (H p). rewrite bool_decide_false in H by (intros [_ ?]; lia). by apply H.
    + destruct (decremented_count inv (productId i) (quantity i))
        as [[Hc (q & Hq & Hle)]|(Hc & Hsame & Hless)]; rewrite Hc.
      * rewrite (IH _). split; intros H p Hp.
        -- destruct (decide (productId i = p)) as [<-|Hne].
           ++ rewrite bool_decide_true by (split; [done|lia]).
              exists q. split; [done|].
              destruct (mentions (productId i) rest) as [|m] eqn:Hm.
              ** rewrite (demand_unmentioned _ _ Hm). lia.
              ** destruct (H (productId i)) as (q' & Hq' & Hle'); [lia|].
                 rewrite decremented_lookup, bool_decide_true, Hq in Hq' by done.
                 injection Hq' as <-. lia.
           ++ rewrite bool_decide_false in Hp |- * by (intros [? _]; done).
              destruct (H p Hp) as (q' & Hq' & Hle').
              rewrite decremented_lookup, bool_decide_false in Hq'
                by (intros [? _]; done).
              eauto.
        -- specialize (H p). rewrite decremented_lookup.
           destruct (decide (productId i = p)) as [<-|Hne].
           ++ rewrite bool_decide_true in H by (split; [done|lia]).
              rewrite bool_decide_true by done.
              destruct H as (q' & Hq' & Hle'); [lia|].
              rewrite Hq in Hq' |- *. injection Hq' as <-. simpl.
              eexists. split; [done|]. lia.
           ++ rewrite bool_decide_false in H by (intros [? _]; done).
              rewrite bool_decide_false by (intros [? _]; done).
              by apply H.
      * split; [done|]. intros H. exfalso.
        destruct (H (productId i)) as (q & Hq & Hle).
        { rewrite bool_decide_true by (split; [done|lia]). lia. }
        rewrite bool_decide_true in Hle by (split; [done|lia]).
        specialize (Hless _ Hq). pose proof (demand_nonneg (productId i) rest). lia.
Qed.

(** X1. decreaseStock succeeds exactly when every product the batch
    names (with a positive quantity) has a row holding at least the total
    the batch asks of that product, two items naming the same product
    counting together. *)
Theorem decreaseStock_succeeds_iff_demand_covered (items : list StockUpdateItem) (w : World) :
  isOk (decreaseStock items w).1 = true
  ↔ ∀ p, (0 < mentions p items)%nat → ∃ q, stock w !! p = Some q ∧ demand p items ≤ q.
Proof.
  rewrite <-(all_matched_iff_demand items (stock w)), decreaseStock_run.
  by destruct (firstUnmatched _).
Qed.


Lemma issued_positiveItems items : ∀ inv,
  (issued (positiveItems items) inv).1 = (issued items inv).1
  ∧ firstUnmatched (issued (positiveItems items) inv).2
    = firstUnmatched (issued items inv).2.
Proof.
  unfold positiveItems.
  induction items as [|i rest IH]; intros inv; simpl; [done|].
  case_bool_decide as Hskip; simpl.
  - rewrite filter_cons_False by lia. apply IH.
  - rewrite filter_cons_True by lia. simpl.
    rewrite bool_decide_false by lia. simpl.
    destruct (decremented inv (productId i) (quantity i)) as [inv1 [|c]]; simpl.
    + split; [apply IH|done].
    + apply IH.
Qed.

Lemma restored_positiveItems items : ∀ inv,
  restored (positiveItems items) inv = restored items inv.
Proof.
  unfold positiveItems.
  induction items as [|i rest IH]; intros inv; simpl; [done|].
  case_bool_decide as Hskip; simpl.
  - rewrite filter_cons_False by lia. apply IH.
  - rewrite filter_cons_True by lia. simpl.
    rewrite bool_decide_false by lia. apply IH.
Qed.

(** X3. Items with a quantity of zero or less play no part: both calls
    behave on a batch exactly as on the batch without them, in outcome,
    error and resulting store. *)
Theorem nonpositive_items_are_ignored (items : list StockUpdateItem) (w : World) :
  decreaseStock items w = decreaseStock (positiveItems items) w
  ∧ increaseStock items w = increaseStock (positiveItems items) w.
Proof.
  split.
  - rewrite !decreaseStock_run.
    destruct (issued_positiveItems items (stock w)) as [-> ->]. done.
  - by rewrite !increaseStock_run, restored_positiveItems.
Qed.

Lemma granted_nonneg p batches : ∀ w, 0 ≤ granted p batches w.
Proof.
  induction batches as [|b rest IH]; intros w; simpl; [done|].
  destruct (decreaseStock b w) as [[?|?] w'].
  - pose proof (demand_nonneg p b). specialize (IH w'). lia.
  - apply IH.
Qed.

Lemma applyOps_decreases p batches : ∀ w q,
  stock w !! p = Some q →
  stock (applyOps (map Decrease batches) w) !! p = Some (q - granted p batches w).
Proof.
  induction batches as [|b rest IH]; intros w q Hq; simpl.
  - rewrite Hq. f_equal. lia.
  - rewrite decreaseStock_run.
    destruct (firstUnmatched (issued b (stock w)).2) eqn:Hfirst; simpl.
    + by apply IH.
    + rewrite (IH _ (q - demand p b)); [f_equal; lia|].
      rewrite stock_setStock, (issued_all_matched _ _ Hfirst p), Hq. done.
Qed.

(** X4. Whatever sequence of decreaseStock batches is run one after the
    other on an inventory without negative quantities, the quantity of a
    product handed out by the batches that succeeded never exceeds what
    its row held at the start, and the row ends holding exactly the
    difference. *)
Theorem sequential_batches_never_oversell
    (batches : list (list StockUpdateItem)) (w : World) (p : string) (q : Z) :
  nonNegative (stock w) → stock w !! p = Some q →
  0 ≤ granted p batches w ≤ q
  ∧ stock (applyOps (map Decrease batches) w) !! p = Some (q - granted p batches w).
Proof.
  intros Hw Hq.
  pose proof (applyOps_decreases p batches w q Hq) as Hfinal.
  pose proof (applyOps_nonNegative (map Decrease batches) w Hw _ _ Hfinal) as Hpos.
  simpl in Hpos. pose proof (granted_nonneg p batches w). split; [lia|done].
Qed.

Lemma sequential_batches_never_oversell_witness :
  nonNegative (stock sampleWorld) ∧ stock sampleWorld !! "productA" = Some 1
  ∧ 0 ≤ granted "productA" [[mkItem "productA" 1]; [mkItem "productA" 1]] sampleWorld ≤ 1
  ∧ stock (applyOps (map Decrease [[mkItem "productA" 1]; [mkItem "productA" 1]])
             sampleWorld) !! "productA"
    = Some (1 - granted "productA" [[mkItem "productA" 1]; [mkItem "productA" 1]]
                  sampleWorld).
Proof.
  split; [exact sampleWorld_nonNegative|]. split; [reflexivity|].
  apply (sequential_batches_never_oversell
           [[mkItem "productA" 1]; [mkItem "productA" 1]] sampleWorld "productA" 1
           sampleWorld_nonNegative).
  reflexivity.
Defined.

Lemma demand_Permutation p items items' :
  Permutation items items' → demand p items = demand p items'.
Proof.
  induction 1 as [|i l l' _ IH|i j l|l l' l'' _ IH1 _ IH2]; simpl; [done|..].
  - by rewrite IH.
  - repeat case_bool_decide; lia.
  - congruence.
Qed.

Lemma mentions_Permutation p items items' :
  Permutation items items' → mentions p items = mentions p items'.
Proof.
  induction 1 as [|i l l' _ IH|i j l|l l' l'' _ IH1 _ IH2]; simpl; [done|..].
  - by rewrite IH.
  - by repeat case_bool_decide.
  - congruence.
Qed.

(** X5. The order of the items in a batch decides neither whether
    decreaseStock succeeds nor the store it leaves (only which item a
    failure names). *)
Theorem decreaseStock_order_irrelevant (items items' : list StockUpdateItem) (w : World) :
  Permutation items items' →
  isOk (decreaseStock items w).1 = isOk (decreaseStock items' w).1
  ∧ (decreaseStock items w).2 = (decreaseStock items' w).2.
Proof.
  intros Hperm.
  assert (firstUnmatched (issued items (stock w)).2 = None
          ↔ firstUnmatched (issued items' (stock w)).2 = None) as Hiff.
  { rewrite !all_matched_iff_demand. split; intros H p Hp.
    - rewrite <-(demand_Permutation p _ _ Hperm). apply H.
      by rewrite (mentions_Permutation p _ _ Hperm).
    - rewrite (demand_Permutation p _ _ Hperm). apply H.
      by rewrite <-(mentions_Permutation p _ _ Hperm). }
  rewrite !decreaseStock_run.
  destruct (firstUnmatched (issued items (stock w)).2) eqn:H1,
           (firstUnmatched (issued items' (stock w)).2) eqn:H2; simpl.
  - done.
  - destruct Hiff as [_ Hiff]. by specialize (Hiff eq_refl).
  - destruct Hiff as [Hiff _]. by specialize (Hiff eq_refl).
  - split; [done|]. f_equal. apply map_eq. intros p.
    rewrite (issued_all_matched _ _ H1 p), (issued_all_matched _ _ H2 p).
    by rewrite (demand_Permutation p _ _ Hperm).
Qed.

Lemma decreaseStock_order_irrelevant_witness :
  isOk (decreaseStock [mkItem "productA" 1; mkItem "productB" 2]
          (setStock {[ "productA" := 1; "productB" := 2 ]} sampleWorld)).1
  = isOk (decreaseStock [mkItem "productB" 2; mkItem "productA" 1]
            (setStock {[ "productA" := 1; "productB" := 2 ]} sampleWorld)).1
  ∧ (decreaseStock [mkItem "productA" 1; mkItem "productB" 2]
       (setStock {[ "productA" := 1; "productB" := 2 ]} sampleWorld)).2
    = (decreaseStock [mkItem "productB" 2; mkItem "productA" 1]
         (setStock {[ "productA" := 1; "productB" := 2 ]} sampleWorld)).2.
Proof.
  apply (decreaseStock_order_irrelevant
           [mkItem "productA" 1; mkItem "productB" 2]
           [mkItem "productB" 2; mkItem "productA" 1]
           (setStock {[ "productA" := 1; "productB" := 2 ]} sampleWorld)).
  apply perm_swap.
Defined.

End InventoryMore.

(* ===================================================================== *)
(** ** More on the payment service                                       *)
(* ===================================================================== *)

Section PaymentMore.

Import Activities Saga Further.

Ltac run_service :=
  unfold Payment.refund, Payment.charge,
    paymentTransaction_update, paymentTransaction_updateExternal,
    paymentTransaction_findUnique, paymentTransaction_create,
    uuid, Math_random, logGateway,
    tryCatch, bind, get, modify, throw, ret;
  simpl.

Lemma externalIdTaken_insert id x row (t : gmap string PaymentTransaction.t) :
  externalIdTaken id x (<[id := row]> t) = externalIdTaken id x t.
Proof.
  unfold externalIdTaken. apply bool_decide_ext.
  split; intros (k & r & Hk & Hne & Hx); exists k, r; split_and!; try done.
  - by rewrite lookup_insert_ne in Hk.
  - by rewrite lookup_insert_ne.
Qed.

(** X6. PaymentService.charge on its own, for an existing order and a
    fresh record id, writes exactly one transaction row and calls the
    gateway once: when the gateway accepts, the row is SUCCEEDED and
    carries the external id that is returned together with the row's id;
    when it declines, the row is FAILED without external id and a
    PaymentFailedError naming the order is thrown. *)
Theorem charge_writes_one_row (orderId : string) (amount : number) (w : World) :
  let id := uuids w (uuidsDrawn w) in
  let ext := "MOCK_TX_" +:+ Payment.toUpperCase (uuids w (S (uuidsDrawn w))) in
  let accepted := Payment.gt (randoms w (randomsDrawn w)) (Qmake 15 100) in
  is_Some (order (db w) !! orderId) →
  payments w !! id = None →
  (accepted = true → externalIdTaken id ext (payments w) = false) →
  (Payment.charge orderId amount w).1
  = (if accepted then Ok (Payment.mkChargeResult ext id)
     else Throw (PaymentFailedError
                   ("Mock payment gateway declined the transaction for Order ID: "
                      +:+ orderId)))
  ∧ payments (Payment.charge orderId amount w).2
    = <[id := PaymentTransaction.mk orderId (if accepted then Some ext else None) amount
                (if accepted then PaymentStatus.SUCCEEDED else PaymentStatus.FAILED)]>
        (payments w)
  ∧ order (db (Payment.charge orderId amount w).2) = order (db w)
  ∧ gatewayCalls (Payment.charge orderId amount w).2
    = (gatewayCalls w ++ [GatewayCharge id ext accepted])%list.
Proof.
  intros id ext accepted Horder Hfresh Hfree. subst id ext accepted.
  destruct w as [[o p i pr] u un r rn g s]. unfold payments in *. simpl in *.
  run_service. rewrite Hfresh. simpl.
  rewrite (bool_decide_true _ Horder). simpl.
  destruct (Payment.gt (r rn) (Qmake 15 100)); simpl; rewrite lookup_insert_eq; simpl.
  - rewrite externalIdTaken_insert, Hfree by done. simpl.
    split_and!; [done| |done|done]. by rewrite insert_insert_eq.
  - split_and!; [done| |done|done]. by rewrite insert_insert_eq.
Qed.

Lemma charge_writes_one_row_witness :
  (Payment.charge "order-1" (Qmake 20 1) sampleWorld).1
  = Throw (PaymentFailedError
             "Mock payment gateway declined the transaction for Order ID: order-1")
  ∧ payments (Payment.charge "order-1" (Qmake 20 1) sampleWorld).2
    = <["uuid-0" := PaymentTransaction.mk "order-1" None (Qmake 20 1)
                      PaymentStatus.FAILED]> (payments sampleWorld).
Proof.
  assert (is_Some (order (db sampleWorld) !! "order-1")) as Horder
    by (vm_compute; eauto).
  assert (payments sampleWorld !! uuids sampleWorld (uuidsDrawn sampleWorld) = None)
    as Hfresh by (vm_compute; reflexivity).
  assert (externalIdTaken (uuids sampleWorld (uuidsDrawn sampleWorld))
            ("MOCK_TX_" +:+ Payment.toUpperCase
                              (uuids sampleWorld (S (uuidsDrawn sampleWorld))))
            (payments sampleWorld) = false) as Hfree.
  { vm_compute. reflexivity. }
  destruct (charge_writes_one_row "order-1" (Qmake 20 1) sampleWorld Horder Hfresh
              (λ _, Hfree)) as (Hres & Hrows & _).
  split; [exact Hres|exact Hrows].
Defined.

(** X7. When the order does not exist, or the id drawn for the row is
    already in use, charge throws an InternalServerErrorException before
    anything else happens: no row is written, the gateway is not called,
    and no random number is drawn. *)
Theorem charge_stops_when_row_cannot_be_created
    (orderId : string) (amount : number) (w : World) :
  order (db w) !! orderId = None ∨ is_Some (payments w !! uuids w (uuidsDrawn w)) →
  (Payment.charge orderId amount w).1
  = Throw (InternalServerErrorException
             "Database error occurred while initiating payment transaction.")
  ∧ db (Payment.charge orderId amount w).2 = db w
  ∧ gatewayCalls (Payment.charge orderId amount w).2 = gatewayCalls w
  ∧ randomsDrawn (Payment.charge orderId amount w).2 = randomsDrawn w.
Proof.
  intros Hbad. destruct w as [[o p i pr] u un r rn g s]. unfold payments in *.
  simpl in *. run_service.
  destruct (p !! u un) as [row|] eqn:Hid; simpl; [done|].
  destruct Hbad as [Hnone|[? ?]]; [|done].
  rewrite bool_decide_false by (rewrite Hnone; by intros [? ?]). done.
Qed.

Lemma charge_stops_when_row_cannot_be_created_witness :
  (Payment.charge "order-9" (Qmake 20 1) sampleWorld).1
  = Throw (InternalServerErrorException
             "Database error occurred while initiating payment transaction.")
  ∧ db (Payment.charge "order-9" (Qmake 20 1) sampleWorld).2 = db sampleWorld
  ∧ gatewayCalls (Payment.charge "order-9" (Qmake 20 1) sampleWorld).2
    = gatewayCalls sampleWorld
  ∧ randomsDrawn (Payment.charge "order-9" (Qmake 20 1) sampleWorld).2
    = randomsDrawn sampleWorld.
Proof.
  apply (charge_stops_when_row_cannot_be_created "order-9" (Qmake 20 1) sampleWorld).
  left. vm_compute. reflexivity.
Defined.

Lemma refund_missing_record (id : string) (w : World) :
  payments w !! id = None →
  Payment.refund id w
  = (Throw (new_Error ("Payment transaction record " +:+ id +:+ " not found.")), w).
Proof. intros Hrow. unfold payments in *. run_service. by rewrite Hrow. Qed.

(** X8. refund acts only on a SUCCEEDED record: on a record in any other
    state, or on no record at all, it leaves the whole store as it is;
    it returns normally in the first case and throws in the second. *)
Theorem refund_acts_only_on_succeeded (id : string) (w : World) :
  (∀ row, payments w !! id = Some row →
          PaymentTransaction.status row ≠ PaymentStatus.SUCCEEDED) →
  (Payment.refund id w).2 = w
  ∧ (Payment.refund id w).1
    = if bool_decide (is_Some (payments w !! id)) then Ok tt
      else Throw (new_Error ("Payment transaction record " +:+ id +:+ " not found.")).
Proof.
  intros Hst. destruct (payments w !! id) as [row|] eqn:Hrow.
  - rewrite (refund_not_succeeded_noop w id row Hrow (Hst row eq_refl)).
    by rewrite bool_decide_true by eauto.
  - rewrite bool_decide_false by (by intros [? ?]).
    by rewrite (refund_missing_record id w Hrow).
Qed.

Lemma refund_acts_only_on_succeeded_witness :
  (Payment.refund "pay-9" sampleWorld).2 = sampleWorld
  ∧ (Payment.refund "pay-9" sampleWorld).1
    = if bool_decide (is_Some (payments sampleWorld !! "pay-9")) then Ok tt
      else Throw (new_Error ("Payment transaction record " +:+ "pay-9" +:+ " not found.")).
Proof.
  apply (refund_acts_only_on_succeeded "pay-9" sampleWorld).
  intros row Hrow. vm_compute in Hrow. discriminate Hrow.
Defined.

Lemma refund_settles (id : string) (w : World) :
  (Payment.refund id (Payment.refund id w).2).2 = (Payment.refund id w).2
  ∧ (length (refundCalls id (Payment.refund id w).2)
     ≤ S (length (refundCalls id w)))%nat.
Proof.
  destruct (payments w !! id) as [row|] eqn:Hrow.
  - destruct (decide (PaymentTransaction.status row = PaymentStatus.SUCCEEDED))
      as [Hst|Hst].
    + destruct (refund_succeeded_calls_gateway w id row Hrow Hst) as (_ & Hrows & Hcalls).
      split.
      * erewrite (refund_not_succeeded_noop (Payment.refund id w).2 id); [done| |].
        -- rewrite Hrows. apply lookup_insert_eq.
        -- simpl. by destruct (Payment.gt _ _).
      * unfold refundCalls. rewrite Hcalls, filter_app, length_app.
        rewrite filter_cons, filter_nil. destruct (decide _); simpl; lia.
    + rewrite (refund_not_succeeded_noop w id row Hrow Hst). simpl.
      rewrite (refund_not_succeeded_noop w id row Hrow Hst). split; [done|lia].
  - rewrite !(refund_missing_record id w Hrow). simpl.
    rewrite !(refund_missing_record id w Hrow). split; [done|lia].
Qed.

Lemma refundRepeatedly_fixed n id w :
  (Payment.refund id w).2 = w → refundRepeatedly n id w = w.
Proof.
  intros Hfix. induction n as [|n IH]; simpl; [done|]. by rewrite Hfix.
Qed.

(** X9. Refunding is idempotent at the service: however often refund is
    called on one record, the store after the first call is the store
    after the last, so the gateway is asked to refund that record at
    most once. *)
Theorem refund_happens_at_most_once (n : nat) (id : string) (w : World) :
  refundRepeatedly (S n) id w = (Payment.refund id w).2
  ∧ (length (refundCalls id (refundRepeatedly n id w))
     ≤ S (length (refundCalls id w)))%nat.
Proof.
  assert (refundRepeatedly (S n) id w = (Payment.refund id w).2) as Hlast.
  { simpl. apply refundRepeatedly_fixed, refund_settles. }
  split; [done|].
  destruct n as [|n]; simpl; [lia|].
  pose proof (refundRepeatedly_fixed n id _ (proj1 (refund_settles id w))) as ->.
  apply refund_settles.
Qed.

End PaymentMore.

(* ===================================================================== *)
(** ** More on the activities                                            *)
(* ===================================================================== *)

Section ActivitiesMore.

Import Inventory Ledger LedgerFacts Activities Temporal Workflow Saga Further.


(** X11. The kitchen is told the catalogue's name of each product, in
    the order and with the quantities of the request: the name carried
    by the workflow input is never used, a product missing from the
    catalogue is shown as Unknown Product, one with an empty name as
    Product(id). For an empty item list nothing is sent. *)
Theorem notifyKitchen_uses_catalogue_names
    (orderId : string) (items : list NotificationService.KitchenItem) (w : World) :
  notifyKitchen_impl orderId items w
  = (Ok tt,
     match items with
     | [] => w
     | _ => withSent (KitchenOrder orderId
                        (map (λ i, (NotificationService.quantity i,
                                    kitchenName w (NotificationService.productId i)))
                             items)) w
     end).
Proof.
  assert (∀ i : NotificationService.KitchenItem,
            NotificationService.displayName
              (NotificationService.mkKitchenItem
                 (NotificationService.productId i) (NotificationService.quantity i)
                 (Some (match product (db w) !! NotificationService.productId i with
                        | Some p => Product.name p
                        | None => "Unknown Product"
                        end)))
            = kitchenName w (NotificationService.productId i)) as Hname.
  { intros i. unfold NotificationService.displayName, kitchenName. simpl.
    destruct (product (db w) !! NotificationService.productId i) as [p|]; simpl; [|done].
    by destruct (String.eqb (Product.name p) ""). }
  unfold notifyKitchen_impl, NotificationService.notifyKitchen, bind, get, ret, send,
    withSent.
  destruct items as [|i rest]; simpl; [done|].
  rewrite Hname, map_map.
  rewrite (map_ext _ (λ j, (NotificationService.quantity j,
                            kitchenName w (NotificationService.productId j)))); [done|].
  intros j. simpl. by rewrite Hname.
Qed.

(** X12. A status written by updateOrderStatus to an existing order is
    the status getOrderStatusFromDb reads back, and no other order is
    changed. *)
Theorem updated_status_is_read_back (orderId : string) (status : OrderStatus.t) (w : World) :
  is_Some (order (db w) !! orderId) →
  ∃ w', updateOrderStatus_impl orderId status w = (Ok tt, w')
        ∧ OrderService.getOrderStatusFromDb orderId w' = (Ok status, w')
        ∧ ∀ other, other ≠ orderId → order (db w') !! other = order (db w) !! other.
Proof.
  intros [o Ho]. unfold updateOrderStatus_impl, order_update, bind, get, modify. simpl.
  rewrite Ho. eexists. split; [done|]. unfold OrderService.getOrderStatusFromDb. simpl.
  rewrite lookup_insert_eq. split; [done|]. intros other Hne.
  by rewrite lookup_insert_ne.
Qed.

Lemma updated_status_is_read_back_witness :
  ∃ w', updateOrderStatus_impl "order-1" OrderStatus.AWAITING_FULFILLMENT sampleWorld
        = (Ok tt, w')
        ∧ OrderService.getOrderStatusFromDb "order-1" w'
          = (Ok OrderStatus.AWAITING_FULFILLMENT, w')
        ∧ ∀ other, other ≠ "order-1" →
                   order (db w') !! other = order (db sampleWorld) !! other.
Proof.
  apply (updated_status_is_read_back "order-1" OrderStatus.AWAITING_FULFILLMENT sampleWorld).
  exists (Order.mk "user-1" "customer@example.com" (Qmake 20 1) OrderStatus.PAID
            [OrderItem.mk "productA" 2 (Qmake 10 1)] None).
  reflexivity.
Defined.

(** X13. createPendingOrder stores the order whole or not at all. When
    it returns, the id it returns is a new order that reads PENDING and
    holds the request's items unchanged; when it throws (an id clash or
    an item naming no product), the database is as before. *)
Theorem createPendingOrder_whole_or_nothing (data : CreatePendingOrderData) (w : World) :
  match createPendingOrder_impl data w with
  | (Ok id, w') =>
      order (db w) !! id = None
      ∧ order (db w')
        = <[id := Order.mk (Activities.userId data) (Activities.userEmail data)
                    (Activities.totalAmount data) OrderStatus.PENDING
                    (Activities.items data) None]> (order (db w))
      ∧ OrderService.getOrderStatusFromDb id w' = (Ok OrderStatus.PENDING, w')
      ∧ Forall (λ i, is_Some (product (db w) !! OrderItem.productId i))
               (Activities.items data)
  | (Throw e, w') => db w' = db w ∧ class e = PrismaClientKnownRequestErrorClass
  end.
Proof.
  assert (map (λ item, OrderItem.mk (OrderItem.productId item) (OrderItem.quantity item)
                         (OrderItem.priceAtOrder item)) (Activities.items data)
          = Activities.items data) as Hid.
  { induction (Activities.items data) as [|[? ? ?] rest IH]; simpl; [done|]. by rewrite IH. }
  unfold createPendingOrder_impl, order_create, uuid, bind, get, modify, throw, ret.
  simpl. rewrite Hid.
  case_bool_decide as Hclash; simpl; [done|].
  destruct (forallb _ (Activities.items data)) eqn:Hfk; simpl; [|done].
  split_and!.
  - by apply eq_None_not_Some.
  - done.
  - unfold OrderService.getOrderStatusFromDb. simpl. by rewrite lookup_insert_eq.
  - apply Forall_forall. intros i Hi.
    rewrite forallb_forall in Hfk. apply list_elem_of_In in Hi.
    exact (bool_decide_eq_true_1 _ (Hfk i Hi)).
Qed.

(** X14. The refundPayment activity returns normally exactly when the
    payment record exists. For an unknown record the first write throws
    outside the try block: the error is Prisma's own, not the activity's
    refund error, and nothing is changed. *)
Theorem refundPayment_returns_iff_record_exists (paymentRecordId : string) (w : World) :
  isOk (refundPayment_impl paymentRecordId w).1
  = bool_decide (is_Some (payments w !! paymentRecordId))
  ∧ (payments w !! paymentRecordId = None →
     refundPayment_impl paymentRecordId w = (Throw P2025, w)).
Proof.
  destruct w as [[o p i pr] u un r rn g s]. unfold payments. simpl.
  unfold refundPayment_impl, Payment.refund, paymentTransaction_update,
    paymentTransaction_findUnique, tryCatch, bind, get, modify, throw, ret. simpl.
  destruct (p !! paymentRecordId) as [row|] eqn:Hrow; simpl.
  - rewrite lookup_insert_eq. simpl. rewrite lookup_insert_eq. simpl. done.
  - done.
Qed.

End ActivitiesMore.

(* ===================================================================== *)
(** ** More on the workflow, for any activities                          *)
(* ===================================================================== *)

Section WorkflowMore.

Import Activities Temporal Workflow Saga Further.
Context {St : Type}.
Variables forward compensation : OrderActivitie St Failure.






Lemma statusUpdates_app h1 h2 :
  statusUpdates (h1 ++ h2) = (statusUpdates h1 ++ statusUpdates h2)%list.
Proof. unfold statusUpdates. by rewrite map_app, omap_app. Qed.

(** X17. Whenever the workflow returns a result for an order it
    created, the status it reports is the last status it asked to be
    written, and it was written to the order it reports. *)
Theorem reported_status_is_last_written
    (input : OrderProcessingWorkflowInput) (s : St) (out : Output) :
  (execute forward compensation input s).1 = Ok out →
  truthy (orderId (execute forward compensation input s).2) = true →
  last (statusUpdates (history (execute forward compensation input s).2))
  = Some (out_orderId out, out_finalStatus out).
Proof.
  intros Hout Hid.
  pose proof (execute_events forward compensation input s) as (_ & Hsplit & _ & _ & Hcase).
  pose proof (tryBlock_run forward input s) as (_ & _ & _ & _ & _ & oid & Hseq & Hres).
  cbv zeta in Hsplit, Hcase, Hseq, Hres.
  destruct (tryBlock forward input (start s)) as [[out1|err] r1]; cbn [fst snd] in *.
  - destruct Hcase as (Hsame & Hr & Hall & _).
    rewrite Hout in Hsame. injection Hsame as <-.
    rewrite Hr in Hall |- *. destruct Hres as (-> & _).
    unfold statusUpdates. rewrite (sequentialRun_all_completed _ _ Hseq Hall). done.
  - destruct Hcase as (_ & _ & _ & Hcomp & Hret). rewrite Hid in Hcomp.
    destruct (forallb completed (compensationEvents
                (history (execute forward compensation input s).2))) eqn:Hall.
    2:{ destruct Hret as [? Hret]. rewrite Hret in Hout. done. }
    rewrite Hret in Hout. injection Hout as <-.
    apply allCompleted_forallb in Hall.
    pose proof (sequentialRun_all_completed _ _ Hcomp Hall) as Hcalls.
    rewrite Hsplit, statusUpdates_app.
    unfold statusUpdates at 2. rewrite Hcalls. unfold compensationPlan.
    destruct (orderId (execute forward compensation input s).2) as [oid'|]; [|done].
    simpl.
    destruct (truthy (paymentRecordId (execute forward compensation input s).2)),
             (inventoryUpdated (execute forward compensation input s).2); simpl;
      by rewrite last_snoc.
Qed.

End WorkflowMore.

Section WorkflowMoreWitnesses.

Import Activities Temporal Workflow Saga Further.

Lemma reported_status_is_last_written_witness :
  last (statusUpdates
          (history (execute (scripted chargeDeclined) (scripted chargeDeclined)
                            sampleInput tt).2))
  = Some ("order-1", OrderStatus.PAYMENT_FAILED).
Proof.
  apply (reported_status_is_last_written (scripted chargeDeclined) (scripted chargeDeclined)
           sampleInput tt (mkOutput "order-1" OrderStatus.PAYMENT_FAILED)).
  - reflexivity.
  - reflexivity.
Defined.

End WorkflowMoreWitnesses.

(* ===================================================================== *)
(** ** The workflow over the registered activities                       *)
(* ===================================================================== *)

Section ChargeNeverCompletes.

Import Activities Temporal Workflow Saga Further.
Context {St B : Type}.
Variables forward compensation : OrderActivitie St Failure.
Variable f : St → B.
Hypothesis charge_fails : ∀ o a s, isOk (chargePayment forward o a s).1 = false.
Hypothesis create_keeps : ∀ d s, f (createPendingOrder forward d s).2 = f s.
Hypothesis update_keeps : ∀ o st s, f (updateOrderStatus forward o st s).2 = f s.
Hypothesis charge_keeps : ∀ o a s, f (chargePayment forward o a s).2 = f s.
Hypothesis compensation_update_keeps :
  ∀ o st s, f (updateOrderStatus compensation o st s).2 = f s.
Hypothesis compensation_mail_keeps :
  ∀ o u r s, f (sendFailureEmail compensation o u r s).2 = f s.

Ltac wf_unfold :=
  unfold execute, processOrderWorkflow, tryBlock, catchBlock, compensate, await,
    setOrderId, setPaymentRecordId, setInventoryUpdated, setFinalStatus, setFailureReason,
    start, tryCatch, bind, get, modify, throw, ret.

Ltac next_kept_call :=
  let K := fresh "Hkeep" in
  match goal with
  | |- context [createPendingOrder forward ?x ?s] =>
      pose proof (create_keeps x s) as K;
      destruct (createPendingOrder forward x s) as [[?|?] ?]
  | |- context [updateOrderStatus forward ?x ?y ?s] =>
      pose proof (update_keeps x y s) as K;
      destruct (updateOrderStatus forward x y s) as [[?|?] ?]
  | |- context [chargePayment forward ?x ?y ?s] =>
      pose proof (charge_keeps x y s) as K;
      let N := fresh "Hfails" in
      pose proof (charge_fails x y s) as N;
      destruct (chargePayment forward x y s) as [[?|?] ?]; [discriminate N|clear N]
  | |- context [updateOrderStatus compensation ?x ?y ?s] =>
      pose proof (compensation_update_keeps x y s) as K;
      destruct (updateOrderStatus compensation x y s) as [[?|?] ?]
  | |- context [sendFailureEmail compensation ?x ?y ?z ?s] =>
      pose proof (compensation_mail_keeps x y z s) as K;
      destruct (sendFailureEmail compensation x y z s) as [[?|?] ?]
  end; simpl in *.

Ltac never_completed :=
  let out := fresh "out" in
  intros out [= <-]; simpl;
  match goal with
  | |- (classify ?err).1 ≠ _ => destruct (classify_range err) as [-> | [-> | ->]]; done
  end.

Lemma run_stops_at_charge input s :
  let res := (execute forward compensation input s).1 in
  let r := (execute forward compensation input s).2 in
  Forall (λ e, beforeInventory (call e) = true) (history r)
  ∧ f (env r) = f s
  ∧ paymentRecordId r = None ∧ inventoryUpdated r = false
  ∧ ∀ out, res = Ok out → out_finalStatus out ≠ OrderStatus.COMPLETED.
Proof.
  wf_unfold. simpl.
  next_kept_call; [|split_and!; [repeat constructor|done..|never_completed]].
  next_kept_call.
  - next_kept_call.
    destruct (negb (String.eqb _ "")); simpl; repeat next_kept_call;
      (split_and!; [repeat constructor|congruence|done|done|done || never_completed]).
  - destruct (negb (String.eqb _ "")); simpl; repeat next_kept_call;
      (split_and!; [repeat constructor|congruence|done|done|done || never_completed]).
Qed.

End ChargeNeverCompletes.

Section WorkerRuns.

Import Activities Temporal Workflow Saga Further.

Lemma runAttempts_keeps {St A B} (f : St → B) (p : RetryPolicy) (act : M St Error A) :
  (∀ s, f (act s).2 = f s) →
  ∀ left attempt s, f (runAttempts p act left attempt s).1.2 = f s.
Proof.
  intros Hact. induction left as [|left IH]; intros attempt s; simpl;
    pose proof (Hact s) as Hs; destruct (act s) as [[a|e] s']; simpl in *; try done.
  - by destruct (isNonRetryable p e).
  - destruct (isNonRetryable p e); [done|].
    specialize (IH (S attempt) s').
    destruct (runAttempts p act left (S attempt) s') as [[r s''] waits]. simpl in *.
    congruence.
Qed.

Lemma runAttempts_never_returns {St A} (p : RetryPolicy) (act : M St Error A) :
  (∀ s, isOk (act s).1 = false) →
  ∀ left attempt s, isOk (runAttempts p act left attempt s).1.1 = false.
Proof.
  intros Hact. induction left as [|left IH]; intros attempt s; simpl;
    pose proof (Hact s) as Hs; destruct (act s) as [[a|e] s']; simpl in *; try done.
  - by destruct (isNonRetryable p e).
  - destruct (isNonRetryable p e); [done|].
    specialize (IH (S attempt) s').
    by destruct (runAttempts p act left (S attempt) s') as [[r s''] waits].
Qed.

Lemma proxy_keeps {St A B} (f : St → B) (o : ActivityOptions) (act : M St Error A) :
  (∀ s, f (act s).2 = f s) → ∀ s, f (proxy o act s).2 = f s.
Proof.
  intros Hact s. unfold proxy, executeActivity.
  pose proof (runAttempts_keeps f (retry o) act Hact
                (maximumAttempts (retry o) - 1) 1 s) as Hrun.
  by destruct (runAttempts _ _ _ _ _) as [[[a|e] s'] waits].
Qed.

Lemma proxy_never_returns {St A} (o : ActivityOptions) (act : M St Error A) :
  (∀ s, isOk (act s).1 = false) → ∀ s, isOk (proxy o act s).1 = false.
Proof.
  intros Hact s. unfold proxy, executeActivity.
  pose proof (runAttempts_never_returns (retry o) act Hact
                (maximumAttempts (retry o) - 1) 1 s) as Hrun.
  by destruct (runAttempts _ _ _ _ _) as [[[a|e] s'] waits].
Qed.

Lemma leavesUntouched_ret {E A} (a : A) : leavesUntouched (E := E) (ret a).
Proof. done. Qed.

Lemma leavesUntouched_throw {E A} (e : E) : leavesUntouched (A := A) (throw e).
Proof. done. Qed.

Lemma leavesUntouched_get {E} : leavesUntouched (E := E) get.
Proof. done. Qed.

Lemma leavesUntouched_bind {E A C} (m : M World E A) (k : A → M World E C) :
  leavesUntouched m → (∀ a, leavesUntouched (k a)) → leavesUntouched (bind m k).
Proof.
  intros Hm Hk w. unfold bind. specialize (Hm w).
  destruct (m w) as [[a|e] w']; simpl in *; [|done]. by rewrite Hk.
Qed.

Lemma leavesUntouched_tryCatch {E E' A} (m : M World E A) (h : E → M World E' A) :
  leavesUntouched m → (∀ e, leavesUntouched (h e)) → leavesUntouched (tryCatch m h).
Proof.
  intros Hm Hh w. unfold tryCatch. specialize (Hm w).
  destruct (m w) as [[a|e] w']; simpl in *; [done|]. by rewrite Hh.
Qed.

Lemma leavesUntouched_uuid : leavesUntouched uuid.
Proof. done. Qed.

Lemma leavesUntouched_random : leavesUntouched Math_random.
Proof. done. Qed.

Lemma leavesUntouched_logGateway c : leavesUntouched (logGateway c).
Proof. done. Qed.

Lemma leavesUntouched_payments {E} g :
  leavesUntouched (E := E) (modify (withDb (withPaymentTransaction g))).
Proof. done. Qed.

Lemma leavesUntouched_orders {E} g :
  leavesUntouched (E := E) (modify (withDb (withOrder g))).
Proof. done. Qed.

Lemma leavesUntouched_failure_mail email orderId reason :
  leavesUntouched (send (FailureEmail email orderId reason)).
Proof.
  intros w. unfold untouched, send. simpl. by rewrite filter_app, app_nil_r.
Qed.

Ltac leaves_untouched :=
  repeat first
    [ apply leavesUntouched_ret | apply leavesUntouched_throw | apply leavesUntouched_get
    | apply leavesUntouched_uuid | apply leavesUntouched_random
    | apply leavesUntouched_logGateway | apply leavesUntouched_payments
    | apply leavesUntouched_orders | apply leavesUntouched_failure_mail
    | apply leavesUntouched_bind; [|intros ?]
    | apply leavesUntouched_tryCatch; [|intros ?]
    | match goal with
      | |- leavesUntouched (if ?b then _ else _) => destruct b
      | |- leavesUntouched (match ?x with Some _ => _ | None => _ end) => destruct x
      end ].

Lemma createPendingOrder_leavesUntouched data :
  leavesUntouched (createPendingOrder_impl data).
Proof. unfold createPendingOrder_impl, order_create. leaves_untouched. Qed.

Lemma updateOrderStatus_leavesUntouched orderId status :
  leavesUntouched (updateOrderStatus_impl orderId status).
Proof. unfold updateOrderStatus_impl, order_update. leaves_untouched. Qed.

Lemma chargePayment_leavesUntouched orderId amount :
  leavesUntouched (chargePayment_impl orderId amount).
Proof.
  unfold chargePayment_impl, Payment.charge, paymentTransaction_create,
    paymentTransaction_update, paymentTransaction_updateExternal.
  leaves_untouched.
Qed.

Lemma sendFailureEmail_leavesUntouched orderId userEmail reason :
  leavesUntouched (sendFailureEmail_impl orderId userEmail reason).
Proof.
  unfold sendFailureEmail_impl, NotificationService.sendOrderFailedEmail.
  leaves_untouched.
Qed.

(** X18. Over the activities the worker registers, no run of the
    workflow gets past the charge: whatever the input and the store, the
    only calls made are creating the order, status updates, the charge
    and the failure mail; the inventory is never changed, the kitchen
    and the confirmation mail are never reached, no refund is attempted,
    and no run reports COMPLETED. *)
Theorem worker_run_stops_at_the_charge (input : OrderProcessingWorkflowInput) (w : World) :
  let res := (run createOrderActivities input w).1 in
  let r := (run createOrderActivities input w).2 in
  Forall (λ e, beforeInventory (call e) = true) (history r)
  ∧ untouched (env r) = untouched w
  ∧ paymentRecordId r = None ∧ inventoryUpdated r = false
  ∧ ∀ out, res = Ok out → out_finalStatus out ≠ OrderStatus.COMPLETED.
Proof.
  apply (run_stops_at_charge
           (proxyActivities forwardOptions createOrderActivities)
           (proxyActivities compensationOptions createOrderActivities) untouched).
  - intros o a s. apply proxy_never_returns. intros s'. apply chargePayment_never_returns.
  - intros d s. apply proxy_keeps. apply createPendingOrder_leavesUntouched.
  - intros o st s. apply proxy_keeps. apply updateOrderStatus_leavesUntouched.
  - intros o a s. apply proxy_keeps. apply chargePayment_leavesUntouched.
  - intros o st s. apply proxy_keeps. apply updateOrderStatus_leavesUntouched.
  - intros o u r s. apply proxy_keeps. apply sendFailureEmail_leavesUntouched.
Qed.

End WorkerRuns.

(* ===================================================================== *)
(** ** Retries of the compensation activities, stock reads               *)
(* ===================================================================== *)

Section CompensationRetries.

Import Inventory Ledger LedgerFacts Activities Temporal Workflow Saga Further.

(** X19. The compensation options name no non-retryable error: a
    compensation activity that keeps throwing, whatever the error (a
    PaymentFailedError included), is attempted exactly ten times, waiting
    5, 10, 20, ... seconds capped at 500, before it fails for good. *)
Theorem compensation_retries_every_error {St A} (act : M St Error A) (e : Error) :
  (∀ s, ∃ s', act s = (Throw e, s')) →
  ∀ s, attemptsMade (executeActivity compensationOptions act s) = 10%nat
       ∧ (executeActivity compensationOptions act s).2
         = [5; 10; 20; 40; 80; 160; 320; 500; 500]
       ∧ (executeActivity compensationOptions act s).1.1 = Throw e.
Proof.
  intros Hfails s.
  assert (isNonRetryable (retry compensationOptions) e = false) as Hretry by done.
  pose proof (runAttempts_exhausted (retry compensationOptions) act e 9 Hretry Hfails 1 s)
    as [Hw Hr].
  unfold executeActivity, attemptsMade. simpl in *. by rewrite Hw, Hr.
Qed.

Lemma compensation_retries_every_error_witness :
  attemptsMade (executeActivity compensationOptions
                  (throw (A := unit) (PaymentFailedError "declined")) tt) = 10%nat
  ∧ (executeActivity compensationOptions
       (throw (A := unit) (PaymentFailedError "declined")) tt).2
    = [5; 10; 20; 40; 80; 160; 320; 500; 500]
  ∧ (executeActivity compensationOptions
       (throw (A := unit) (PaymentFailedError "declined")) tt).1.1
    = Throw (PaymentFailedError "declined").
Proof.
  apply (compensation_retries_every_error
           (throw (A := unit) (PaymentFailedError "declined"))
           (PaymentFailedError "declined")).
  intros s. exists s. reflexivity.
Defined.


End CompensationRetries.

(* ===================================================================== *)
(** ** OrderService.createOrder                                          *)
(* ===================================================================== *)

Section OrderServiceFacts.

Import Activities Temporal Workflow Saga Further.
Import OrderService.

Variable times : number → Z → number.
Variable plus : number → number → number.
Variable workflowStart : string → OrderProcessingWorkflowInput → M World Error string.

Lemma findMany_lookup ids w id :
  findMany ids w !! id = if decide (id ∈ ids) then product (db w) !! id else None.
Proof.
  unfold findMany. destruct (decide (id ∈ ids)) as [Hin|Hout].
  - destruct (product (db w) !! id) as [p|] eqn:Hp.
    + by apply map_lookup_filter_Some.
    + apply map_lookup_filter_None. by left.
  - apply map_lookup_filter_None. right. intros p _. done.
Qed.

Lemma size_findMany_cons a l w :
  size (findMany (a :: l) w)
  = (size (findMany l w)
     + (if bool_decide ((a ∉ l) ∧ inCatalogue w a) then 1 else 0))%nat.
Proof.
  case_bool_decide as Hnew.
  - destruct Hnew as [Hnotin [p Hp]].
    assert (findMany (a :: l) w = <[a := p]> (findMany l w)) as ->.
    { apply map_eq. intros k. rewrite findMany_lookup.
      destruct (decide (k = a)) as [->|Hne].
      - rewrite lookup_insert_eq, decide_True by (by left). done.
      - rewrite lookup_insert_ne, findMany_lookup by done.
        destruct (decide (k ∈ a :: l)) as [Hin|Hout], (decide (k ∈ l)) as [Hin'|Hout'];
          try done.
        + apply elem_of_cons in Hin as [?|?]; done.
        + exfalso. apply Hout. by right. }
    rewrite map_size_insert_None; [lia|].
    by rewrite findMany_lookup, decide_False.
  - assert (findMany (a :: l) w = findMany l w) as ->; [|lia].
    apply map_eq. intros k. rewrite !findMany_lookup.
    destruct (decide (k ∈ a :: l)) as [Hin|Hout], (decide (k ∈ l)) as [Hin'|Hout'];
      try done.
    + apply elem_of_cons in Hin as [->|?]; [|done].
      destruct (product (db w) !! a) as [p|] eqn:Hp; [|done].
      exfalso. apply Hnew. split; [done|]. by exists p.
    + exfalso. apply Hout. by right.
Qed.

Lemma size_findMany_nil w : size (findMany [] w) = 0%nat.
Proof.
  assert (findMany [] w = ∅) as ->; [|done].
  apply map_eq. intros k. rewrite findMany_lookup, lookup_empty.
  rewrite decide_False; [done|]. apply not_elem_of_nil.
Qed.

Lemma size_findMany_le l w : (size (findMany l w) ≤ length l)%nat.
Proof.
  induction l as [|a l IH]; [by rewrite size_findMany_nil|].
  rewrite size_findMany_cons. simpl. case_bool_decide; lia.
Qed.

(** The length check of createOrder passes exactly for a request whose
    product ids are pairwise distinct and all in the catalogue. *)
Lemma size_findMany_eq l w :
  size (findMany l w) = length l ↔ NoDup l ∧ Forall (inCatalogue w) l.
Proof.
  induction l as [|a l IH].
  - rewrite size_findMany_nil. split; [|done]. intros _. split; constructor.
  - rewrite size_findMany_cons, NoDup_cons, Forall_cons. simpl.
    pose proof (size_findMany_le l w) as Hle.
    case_bool_decide as Hnew.
    + destruct Hnew as [Hnotin Hcat]. split.
      * intros Hsize. assert (size (findMany l w) = length l) as Hl by lia.
        apply IH in Hl as [? ?]. done.
      * intros [[_ Hnd] [_ Hall]]. rewrite (proj2 IH); [lia|done].
    + split; [lia|]. intros [[Hnotin _] [Hcat _]]. exfalso. by apply Hnew.
Qed.

Lemma filter_missing l ids w :
  Forall (λ id, id ∈ ids) l →
  filter (λ id, findMany ids w !! id = None) l
  = filter (λ id, product (db w) !! id = None) l.
Proof.
  induction 1 as [|id l Hid _ IH]; [done|].
  pose proof (findMany_lookup ids w id) as Hsame.
  rewrite decide_True in Hsame by done.
  rewrite !filter_cons, IH. repeat case_decide; congruence.
Qed.

Lemma priceItems_run productMap w itemDtos :
  (∀ i, i ∈ itemDtos →
        is_Some (productMap !! productId i)
        ∧ productMap !! productId i = product (db w) !! productId i) →
  ∀ totalAmount workflowItems,
    priceItems times plus productMap itemDtos totalAmount workflowItems
    = Ok (foldl (λ total i,
                   plus total (times (Workflow.priceAtOrder (pricedItem w i)) (quantity i)))
                totalAmount itemDtos,
          (workflowItems ++ map (pricedItem w) itemDtos)%list).
Proof.
  induction itemDtos as [|i rest IH]; intros Hin totalAmount workflowItems; simpl.
  - rewrite app_nil_r. reflexivity.
  - destruct (Hin i) as [[p Hp] Hsame]; [by left|].
    rewrite Hp. rewrite IH by (intros j Hj; apply Hin; by right).
    assert (pricedItem w i
            = mkWorkflowItem (productId i) (quantity i) (Product.price p)
                (Some (Product.name p))) as ->
      by (unfold pricedItem; by rewrite <-Hsame, Hp).
    simpl. rewrite <-app_assoc. reflexivity.
Qed.

(** X21. createOrder turns a request down whenever its product ids
    are not pairwise distinct or not all in the catalogue. It then throws
    NotFoundException listing the requested ids that the catalogue lacks
    (an empty list when the only fault is a product named twice), without
    changing the store and without contacting the workflow client. *)
Theorem createOrder_rejects_unknown_or_repeated_products
    (dto : CreateOrderDto) (w : World) :
  ¬ (NoDup (requestedIds dto) ∧ Forall (inCatalogue w) (requestedIds dto)) →
  createOrder times plus workflowStart dto w
  = (Throw (NotFoundException
              ("Products not found: "
                 +:+ String.concat ", "
                       (filter (λ id, product (db w) !! id = None) (requestedIds dto)))),
     w).
Proof.
  intros Hbad. unfold createOrder, requestedIds in *.
  rewrite bool_decide_true by (by rewrite size_findMany_eq).
  rewrite filter_missing; [done|]. by apply Forall_forall.
Qed.

(** X22. A request whose product ids are pairwise distinct and all in
    the catalogue starts exactly one workflow, under the id order-wf-
    followed by a fresh uuid. The workflow input carries the request's
    user and, item by item in the request's order, the requested
    quantity with the catalogue's price and name; the total is the sum
    of price times quantity. The inconsistent-product branch of the loop
    is never taken. A client failure becomes
    InternalServerErrorException. *)
Theorem createOrder_starts_one_workflow (dto : CreateOrderDto) (w : World) :
  NoDup (requestedIds dto) → Forall (inCatalogue w) (requestedIds dto) →
  createOrder times plus workflowStart dto w
  = match workflowStart ("order-wf-" +:+ uuids w (uuidsDrawn w))
            (mkInput (userId dto) (userEmail dto) (map (pricedItem w) (items dto))
               (foldl (λ total i,
                         plus total
                              (times (Workflow.priceAtOrder (pricedItem w i)) (quantity i)))
                      (Qmake 0 1) (items dto)))
            (uuid w).2 with
    | (Ok handleWorkflowId, w2) =>
        (Ok (mkSubmitted handleWorkflowId
               "Order processing initiated. You will receive an email confirmation shortly."),
         w2)
    | (Throw _, w2) =>
        (Throw (InternalServerErrorException
                  "Failed to initiate order processing. Please try again later."),
         w2)
    end.
Proof.
  intros Hnd Hall. unfold createOrder, requestedIds in *.
  rewrite bool_decide_false by (rewrite size_findMany_eq; by intros []).
  rewrite (priceItems_run _ w); [done|].
  intros i Hi.
  assert (productId i ∈ map productId (items dto)) as Hin
    by (apply list_elem_of_fmap; eauto).
  rewrite findMany_lookup, decide_True by done. split; [|done].
  rewrite Forall_forall in Hall. by apply Hall.
Qed.

End OrderServiceFacts.

Section OrderServiceWitnesses.

Import Activities Temporal Workflow Saga Further.
Import OrderService.

Lemma createOrder_rejects_unknown_or_repeated_products_witness :
  createOrder timesQ Qplus startAccepted
    (mkDto "user-1" "customer@example.com"
       [mkItemDto "productA" 1; mkItemDto "productA" 1]) sampleWorld
  = (Throw (NotFoundException
              ("Products not found: "
                 +:+ String.concat ", "
                       (filter (λ id, product (db sampleWorld) !! id = None)
                          (requestedIds
                             (mkDto "user-1" "customer@example.com"
                                [mkItemDto "productA" 1; mkItemDto "productA" 1]))))),
     sampleWorld).
Proof.
  apply (createOrder_rejects_unknown_or_repeated_products timesQ Qplus startAccepted
           (mkDto "user-1" "customer@example.com"
              [mkItemDto "productA" 1; mkItemDto "productA" 1]) sampleWorld).
  intros [Hnd _]. apply NoDup_cons in Hnd as [Hnotin _]. apply Hnotin. by left.
Defined.

Lemma createOrder_starts_one_workflow_witness :
  createOrder timesQ Qplus startAccepted sampleDto sampleWorld
  = (Ok (mkSubmitted "order-wf-uuid-0"
           "Order processing initiated. You will receive an email confirmation shortly."),
     (uuid sampleWorld).2).
Proof.
  apply (createOrder_starts_one_workflow timesQ Qplus startAccepted sampleDto sampleWorld).
  - apply NoDup_singleton.
  - apply Forall_singleton. by eexists.
Defined.

End OrderServiceWitnesses.

(** The client cannot reach the server: the request is answered with an
    internal error, the id drawn for the workflow being spent. *)
Example createOrder_client_down :
  OrderService.createOrder Further.timesQ Qplus Further.startRefused
    Further.sampleDto Saga.sampleWorld
  = (Throw (OrderService.InternalServerErrorException
              "Failed to initiate order processing. Please try again later."),
     (uuid Saga.sampleWorld).2).
Proof. vm_compute. reflexivity. Qed.

(* ===================================================================== *)
(** ** The failure mail                                                  *)
(* ===================================================================== *)

Section FailureMail.

Import Activities Temporal Workflow Saga Further.

Lemma classify_reason_not_empty err : String.eqb (classify err).2 "" = false.
Proof.
  destruct err as [m cause| |]; simpl; try done.
  destruct (causeIs cause "PaymentFailedError" PaymentFailedErrorClass); [done|].
  by destruct (causeIs cause "InsufficientStockError" InsufficientStockErrorClass).
Qed.

(** X23. The reason the catch block derives from a failure is never
    empty, so the failure mail always carries that reason, addressed to
    the user's email for the run's order: the service's fallback text is
    never what a run sends. *)
Theorem failure_mail_carries_the_classified_reason
    (err : Failure) (orderId userEmail : string) (w : World) :
  sendFailureEmail_impl orderId userEmail (classify err).2 w
  = (Ok tt, withSent (FailureEmail userEmail orderId (classify err).2) w).
Proof.
  unfold sendFailureEmail_impl, NotificationService.sendOrderFailedEmail.
  by rewrite classify_reason_not_empty.
Qed.

End FailureMail.
